(** * tn_compose_cli: the session / job reconciliation core

    A shallow embedding of [src/tn_compose_cli.py] and the properties of
    its canonicalizer, session manager, job watcher and reconciler.

    Conventions of the embedding.
    - A Python [str] is a Rocq [string] whose characters are the code
      points 0..255; the order [String.leb] is then Python's order on
      [str] (code point by code point).
    - Numbers are Python [int]s (unbounded, [Z]); floating point values
      are outside the model.
    - A Python [dict] is an association list in insertion order; a
      well-formed one has no repeated key ([wf_doc]).
    - Text that the program prints is kept as a typed [line]; each
      constructor's comment gives the literal text of the source. *)

From Stdlib Require Import List String Ascii ZArith Lia Bool.
From Stdlib Require Import DecimalString Permutation Sorted.
Import ListNotations.

Local Open Scope string_scope.
Local Open Scope Z_scope.

(** ** Documents: what [yaml.safe_load], [json.loads] and an RPC return *)

#[warnings="-register-all"]
Inductive doc : Type :=
| DNone                                   (* None *)
| DBool (b : bool)                        (* True, False *)
| DInt  (n : Z)                           (* int *)
| DStr  (s : string)                      (* str *)
| DDate (ordinal : Z)                     (* datetime.date, from a YAML timestamp *)
| DList (xs : list doc)                   (* list *)
| DDict (kvs : list (string * doc)).      (* dict with str keys, insertion order *)

(** Induction over the nested lists of a document. *)
Section DocInd.
Variable P : doc -> Prop.
Hypothesis HNone : P DNone.
Hypothesis HBool : forall b, P (DBool b).
Hypothesis HInt  : forall n, P (DInt n).
Hypothesis HStr  : forall s, P (DStr s).
Hypothesis HDate : forall d, P (DDate d).
Hypothesis HList : forall xs, Forall P xs -> P (DList xs).
Hypothesis HDict : forall kvs, Forall (fun kv => P (snd kv)) kvs -> P (DDict kvs).

Fixpoint doc_rect' (d : doc) : P d :=
  match d with
  | DNone => HNone
  | DBool b => HBool b
  | DInt n => HInt n
  | DStr s => HStr s
  | DDate o => HDate o
  | DList xs =>
      HList xs
        ((fix go (l : list doc) : Forall P l :=
            match l with
            | [] => Forall_nil _
            | x :: r => Forall_cons x (doc_rect' x) (go r)
            end) xs)
  | DDict kvs =>
      HDict kvs
        ((fix go (l : list (string * doc)) : Forall (fun kv => P (snd kv)) l :=
            match l with
            | [] => Forall_nil _
            | kv :: r => Forall_cons kv (doc_rect' (snd kv)) (go r)
            end) kvs)
  end.
End DocInd.

(** [d.get(k)] / [d[k]] on the association list: the entry of key [k]. *)
Fixpoint dict_get (k : string) (kvs : list (string * doc)) : option doc :=
  match kvs with
  | [] => None
  | (k', v) :: r => if String.eqb k k' then Some v else dict_get k r
  end.

(** No key occurs twice in a dict, at any depth. *)
Fixpoint wf_doc (d : doc) : Prop :=
  match d with
  | DList xs =>
      (fix all (l : list doc) : Prop :=
         match l with [] => True | x :: r => wf_doc x /\ all r end) xs
  | DDict kvs =>
      NoDup (map fst kvs) /\
      (fix all (l : list (string * doc)) : Prop :=
         match l with [] => True | (_, v) :: r => wf_doc v /\ all r end) kvs
  | _ => True
  end.

(** Python's [bool(v)]. *)
Definition truthy (v : doc) : bool :=
  match v with
  | DNone => false
  | DBool b => b
  | DInt n => negb (n =? 0)
  | DStr s => negb (String.eqb s "")
  | DDate _ => true
  | DList xs => match xs with [] => false | _ => true end
  | DDict kvs => match kvs with [] => false | _ => true end
  end.

(** Python's [a == b] on documents.  [bool] is a subclass of [int]
    ([True == 1]); lists compare element by element; dicts compare as
    mappings: same size and every key of [a] bound in [b] to an equal
    value, whatever the insertion order. *)
Fixpoint py_eq (a b : doc) {struct a} : bool :=
  match a, b with
  | DNone, DNone => true
  | DBool x, DBool y => Bool.eqb x y
  | DBool x, DInt n => n =? (if x then 1 else 0)
  | DInt n, DBool x => n =? (if x then 1 else 0)
  | DInt m, DInt n => m =? n
  | DStr s, DStr t => String.eqb s t
  | DDate x, DDate y => x =? y
  | DList xs, DList ys =>
      (fix go (l l' : list doc) {struct l} : bool :=
         match l, l' with
         | [], [] => true
         | x :: r, y :: r' => py_eq x y && go r r'
         | _, _ => false
         end) xs ys
  | DDict kvs, DDict kvs' =>
      Nat.eqb (List.length kvs) (List.length kvs') &&
      (fix go (l : list (string * doc)) : bool :=
         match l with
         | [] => true
         | (k, v) :: r =>
             match dict_get k kvs' with
             | Some v' => py_eq v v'
             | None => false
             end && go r
         end) kvs
  | _, _ => false
  end.

Definition py_ne (a b : doc) : bool := negb (py_eq a b).

(** The two loops of [py_eq], on their own: element by element, and
    every entry of [l] bound in [b] to an equal value. *)
Section Pointwise.
Variable f : doc -> doc -> bool.
Variable b : list (string * doc).

Fixpoint list_eqb (l l' : list doc) {struct l} : bool :=
  match l, l' with
  | [], [] => true
  | x :: r, y :: r' => f x y && list_eqb r r'
  | _, _ => false
  end.

Fixpoint all_in (l : list (string * doc)) : bool :=
  match l with
  | [] => true
  | (k, v) :: r =>
      match dict_get k b with
      | Some v' => f v v'
      | None => false
      end && all_in r
  end.
End Pointwise.

(** ** Python's [sorted]: a stable sort on precomputed keys *)

Section Sorting.
Context {A K : Type}.
Variable leb : K -> K -> bool.
Variable key : A -> K.

(** [x] goes in front of the first element whose key is not smaller:
    among equal keys the original order is kept. *)
Fixpoint insert_by (x : A) (l : list A) : list A :=
  match l with
  | [] => [x]
  | y :: r => if leb (key x) (key y) then x :: l else y :: insert_by x r
  end.

Definition sorted_by (l : list A) : list A := fold_right insert_by [] l.
End Sorting.

(** [sorted(l)] on strings. *)
Definition sorted_str (l : list string) : list string :=
  sorted_by String.leb (fun k => k) l.

(** Every key was computed, or one of them raised. *)
Fixpoint all_keys {K A : Type} (l : list (option K * A)) : option (list (K * A)) :=
  match l with
  | [] => Some []
  | (Some k, x) :: r => option_map (cons (k, x)) (all_keys r)
  | (None, _) :: _ => None
  end.

(** [sorted(l, key=f)] where [f] may raise ([None]): the keys are
    computed first, one per element, then the elements are sorted on
    them; [None] when a key raised. *)
Definition py_sorted {A : Type} (f : A -> option string) (l : list A) : option (list A) :=
  option_map (fun dec => map snd (sorted_by String.leb fst dec))
             (all_keys (map (fun x => (f x, x)) l)).

(** ** [json.dumps(v, sort_keys=True)] *)

Module Json.

Definition dquote : ascii := "034"%char.
Definition backslash : ascii := "092"%char.

Definition hex_digit (n : N) : ascii :=
  (if n <? 10 then ascii_of_N (48 + n) else ascii_of_N (87 + n))%N.

(** [\u00xx], lower-case hexadecimal. *)
Definition u_escape (c : ascii) : string :=
  let n := N_of_ascii c in
  String backslash
    (String "u" (String "0" (String "0"
       (String (hex_digit (n / 16)) (String (hex_digit (n mod 16)) ""))))).

(** One character of [py_encode_basestring_ascii]: printable ASCII
    other than the quote and the backslash stands for itself. *)
Definition escape_char (c : ascii) : string :=
  let n := N_of_ascii c in
  if Ascii.eqb c dquote then String backslash (String dquote "")
  else if Ascii.eqb c backslash then String backslash (String backslash "")
  else if (n =? 10)%N then String backslash "n"
  else if (n =? 13)%N then String backslash "r"
  else if (n =? 9)%N then String backslash "t"
  else if (n =? 8)%N then String backslash "b"
  else if (n =? 12)%N then String backslash "f"
  else if ((32 <=? n) && (n <=? 126))%N then String c ""
  else u_escape c.

Fixpoint escape (s : string) : string :=
  match s with
  | EmptyString => ""
  | String c r => escape_char c ++ escape r
  end.

Definition quote (s : string) : string :=
  String dquote (escape s ++ String dquote "").

Definition of_int (n : Z) : string := NilZero.string_of_int (Z.to_int n).

(** [", ".join(parts)] *)
Fixpoint join (parts : list string) : string :=
  match parts with
  | [] => ""
  | [p] => p
  | p :: r => p ++ ", " ++ join r
  end.

Definition item (kv : string * string) : string := quote (fst kv) ++ ": " ++ snd kv.

(** The serialisation; [None] is the [TypeError] raised for a value
    that is not JSON serialisable (here: a date). *)
Fixpoint dumps (v : doc) : option string :=
  match v with
  | DNone => Some "null"
  | DBool true => Some "true"
  | DBool false => Some "false"
  | DInt n => Some (of_int n)
  | DStr s => Some (quote s)
  | DDate _ => None
  | DList xs =>
      let parts :=
        (fix go (l : list doc) : list (option string * unit) :=
           match l with
           | [] => []
           | x :: r => (dumps x, tt) :: go r
           end) xs in
      option_map (fun ps => "[" ++ join (map fst ps) ++ "]") (all_keys parts)
  | DDict kvs =>
      let parts :=
        (fix go (l : list (string * doc)) : list (option string * string) :=
           match l with
           | [] => []
           | (k, x) :: r => (dumps x, k) :: go r
           end) kvs in
      option_map
        (fun ps => "{" ++ join (map item (sorted_by String.leb fst
                                            (map (fun p => (snd p, fst p)) ps))) ++ "}")
        (all_keys parts)
  end.

End Json.

(** ** The canonicalizer *)

(** [{k: f(k) for k in ks}], reading [f(k)] from the entries [cvs]. *)
Definition dict_of_keys (cvs : list (string * doc)) (ks : list string) : list (string * doc) :=
  flat_map (fun k => match dict_get k cvs with
                     | Some v => [(k, v)]
                     | None => []
                     end) ks.

(** [canonicalize], lines 214-223.  The recursive calls are made on the
    elements in place (the values of the dict, the elements of the list
    next to the sort key of the element as it came in) so that the
    recursion is structural; [canonicalize_dict] and [canonicalize_list]
    below restate the two branches in the order of the source. *)
Fixpoint canonicalize (obj : doc) : doc :=
  match obj with
  | DDict kvs =>
      let cvs :=
        (fix go (l : list (string * doc)) : list (string * doc) :=
           match l with
           | [] => []
           | (k, v) :: r => (k, canonicalize v) :: go r
           end) kvs in
      DDict (dict_of_keys cvs (sorted_str (map fst kvs)))
  | DList xs =>
      let cs :=
        (fix go (l : list doc) : list (option string * doc) :=
           match l with
           | [] => []
           | x :: r => (Json.dumps x, canonicalize x) :: go r
           end) xs in
      match all_keys cs with
      | Some dec => DList (map snd (sorted_by String.leb fst dec))
      | None => DList (map snd cs)
      end
  | _ => obj
  end.

(** [json_equivalent], lines 226-227. *)
Definition json_equivalent (a b : doc) : bool :=
  py_eq (canonicalize a) (canonicalize b).

(** ** Strings of the session manager *)

(** [str.lower] on the code points 0..255: A-Z and the capital letters
    of Latin-1 (U+00C0..U+00DE but the multiplication sign U+00D7). *)
Definition lower_char (c : ascii) : ascii :=
  let n := N_of_ascii c in
  if (((65 <=? n) && (n <=? 90)) ||
      ((192 <=? n) && (n <=? 222) && negb (n =? 215)))%N
  then ascii_of_N (n + 32) else c.

Fixpoint lower (s : string) : string :=
  match s with
  | EmptyString => ""
  | String c r => String (lower_char c) (lower r)
  end.

(** [needle in hay] *)
Fixpoint contains (needle hay : string) : bool :=
  match hay with
  | EmptyString => prefix needle ""
  | String _ r => prefix needle hay || contains needle r
  end.

(** The test of line 74, on the lower-cased message. *)
Definition transient (msg : string) : bool :=
  contains "rate" msg || contains "ratelimit" msg ||
  contains "broken pipe" msg || contains "closed" msg.

(** [type(v).__name__] *)
Definition type_name (v : doc) : string :=
  match v with
  | DNone => "NoneType"
  | DBool _ => "bool"
  | DInt _ => "int"
  | DStr _ => "str"
  | DDate _ => "datetime.date"
  | DList _ => "list"
  | DDict _ => "dict"
  end.

(** ** The world around the program *)

(** Why the program stops itself ([raise SystemExit(...)]):
    - [LoginFailed]: "Login failed";
    - [DockerUnconfigured]: "Docker Application service is UNCONFIGURED.
      Configure it and try again.";
    - [DockerUnhealthy st]: "Docker Application service is not healthy
      (status=" repr(st) ")." *)
Inductive fatal : Type :=
| LoginFailed
| DockerUnconfigured
| DockerUnhealthy (st : doc).

(** What can be raised.  [Exception msg] is an instance of (a subclass
    of) [Exception] with [str(e) = msg]; [SystemExit] and [Interrupt]
    (a [KeyboardInterrupt], say) are not caught by [except Exception]. *)
Inductive exn : Type :=
| Exception (msg : string)
| SystemExit (why : fatal)
| Interrupt.

(** What the program asks of the transport black box. *)
Inductive request : Type :=
| Connect (uri : string)                       (* Client(uri) *)
| Enter                                        (* c.__enter__() *)
| Rpc (method : string) (params : list doc)    (* c.call(method, *params) *)
| Exit.                                        (* c.__exit__(None, None, None) *)

Inductive reply : Type :=
| Ok (v : doc)
| Fail (e : exn).

(** The black box: its answer to a request, given how many requests it
    was sent before. *)
Definition transport : Type := nat -> request -> reply.

(** The lines of the terminal:
    - [JobStatus j state pct desc]: "[job j] state pct% - desc", with
      nothing for a [pct] that is None and for a falsy [desc];
    - [JobLogs j logs]: "[job j logs]" and the excerpt on the next line;
    - [JobFinished j]: "[job j] Finished.";
    - [JobEnded j state err]: "[job j] state. error = " repr(err);
    - [Update n]: "[UPDATE] n -- Config has drifted. Updating....";
    - [Skip n]: "[SKIP] n -- App Exists, and the config is up to date.";
    - [Create n]: "[CREATE] n -- App is defined, but not deployed.
      Deploying...";
    - [CreateCatalog n]: "[CREATE] n -- App Catalog is defined, but not
      deployed. Deploying...". *)
Inductive line : Type :=
| JobStatus (job_id state pct desc : doc)
| JobLogs (job_id logs : doc)
| JobFinished (job_id : doc)
| JobEnded (job_id state err : doc)
| Update (app_name : string)
| Skip (app_name : string)
| Create (app_name : string)
| CreateCatalog (app_name : string).

Inductive event : Type :=
| Sent (rq : request) (rp : reply)
| Slept (secs : Z)
| Printed (l : line).

(** [class TNSession]: its attributes; [_c] is the client handle (the
    serial number of the connection) or None. *)
Record TNSession : Type := mkSession {
  uri : string;
  user : doc;
  password : doc;
  api_key : doc;
  _c : option nat
}.

Record world : Type := mkWorld {
  SESSION : TNSession;       (* the global session object *)
  clock : nat;               (* requests sent so far *)
  log : list event           (* what happened, oldest first *)
}.

(** How a call ends: it returns, it raises, or the model ran out of
    fuel in a [while True] loop. *)
Inductive outcome (A : Type) : Type :=
| Ret (a : A)
| Raise (e : exn)
| Spin.

Arguments Ret {A} a.
Arguments Raise {A} e.
Arguments Spin {A}.

Definition M (A : Type) : Type := world -> outcome A * world.

Definition ret {A} (a : A) : M A := fun w => (Ret a, w).

Definition raise {A} (e : exn) : M A := fun w => (Raise e, w).

Definition bind {A B} (m : M A) (k : A -> M B) : M B :=
  fun w =>
    match m w with
    | (Ret a, w') => k a w'
    | (Raise e, w') => (Raise e, w')
    | (Spin, w') => (Spin, w')
    end.

(** [try: body / except ...: h e] *)
Definition try_except {A} (body : M A) (h : exn -> M A) : M A :=
  fun w =>
    match body w with
    | (Raise e, w') => h e w'
    | r => r
    end.

(** [try: body / finally: fin] *)
Definition try_finally {A} (body : M A) (fin : M unit) : M A :=
  fun w =>
    match body w with
    | (Spin, w') => (Spin, w')
    | (r, w') =>
        match fin w' with
        | (Ret _, w'') => (r, w'')
        | (Raise e, w'') => (Raise e, w'')
        | (Spin, w'') => (Spin, w'')
        end
    end.

Declare Scope py_scope.
Delimit Scope py_scope with py.
Notation "x <- m ;; k" := (bind m (fun x => k))
  (at level 100, m at next level, right associativity) : py_scope.
Notation "m ;; k" := (bind m (fun _ => k))
  (at level 100, right associativity) : py_scope.
Local Open Scope py_scope.

(** The world after a request and its reply, after a line, after a
    sleep, and with another client handle. *)
Definition sent (w : world) (rq : request) (rp : reply) : world :=
  mkWorld (SESSION w) (S (clock w)) (log w ++ [Sent rq rp]).

Definition printed (w : world) (l : line) : world :=
  mkWorld (SESSION w) (clock w) (log w ++ [Printed l]).

Definition slept (w : world) (secs : Z) : world :=
  mkWorld (SESSION w) (clock w) (log w ++ [Slept secs]).

Definition with_c (w : world) (c : option nat) : world :=
  let s := SESSION w in
  mkWorld (mkSession (uri s) (user s) (password s) (api_key s) c)
          (clock w) (log w).

Definition print (l : line) : M unit := fun w => (Ret tt, printed w l).

(** [time.sleep(secs)] *)
Definition sleep (secs : Z) : M unit := fun w => (Ret tt, slept w secs).

(** [self._c = c] *)
Definition set_c (c : option nat) : M unit := fun w => (Ret tt, with_c w c).

(** [d.get(k)]: None for a missing key; a value that is no dict has no
    [get]. *)
Definition py_get (d : doc) (k : string) : M doc :=
  match d with
  | DDict kvs => ret (match dict_get k kvs with Some v => v | None => DNone end)
  | _ => raise (Exception ("'" ++ type_name d ++ "' object has no attribute 'get'"))
  end.

(** ['- ' + desc]: only a str can be added to a str. *)
Definition concat_str (desc : doc) : M unit :=
  match desc with
  | DStr _ => ret tt
  | _ => raise (Exception ("can only concatenate str (not "
                             ++ String Json.dquote (type_name desc)
                             ++ String Json.dquote ") to str"))
  end.

(** A file of the definitions directory, as [pathlib] shows it. *)
Record path : Type := mkPath {
  full : string;        (* str(path) *)
  name : string;        (* path.name *)
  stem : string;        (* path.stem *)
  suffix : string;      (* path.suffix *)
  is_file : bool;       (* path.is_file() *)
  read_text : string    (* path.read_text(encoding="utf-8") *)
}.

(** What a parser makes of a text: the data, or a [yaml.YAMLError] /
    [json.JSONDecodeError] with its message. *)
Inductive parsed : Type :=
| Data (d : doc)
| ParseError (e : string).

(** [s.lstrip('.')] *)
Fixpoint lstrip_dot (s : string) : string :=
  match s with
  | String c r => if Ascii.eqb c "."%char then lstrip_dot r else s
  | EmptyString => ""
  end.

(** ** The program *)

Section Program.

(** The collaborators that the program takes as black boxes. *)
Variable tr : transport.
Variable yaml_safe_load : string -> parsed.
Variable json_loads : string -> parsed.

(** One request to the transport, and its reply. *)
Definition send (rq : request) : M doc :=
  fun w =>
    let rp := tr (clock w) rq in
    match rp with
    | Ok v => (Ret v, sent w rq rp)
    | Fail e => (Raise e, sent w rq rp)
    end.

(** *** [TNSession], lines 34-83 *)

(** [close], lines 56-61. *)
Definition close : M unit :=
  fun w =>
    match _c (SESSION w) with
    | Some _ => try_finally (send Exit ;; ret tt) (set_c None) w
    | None => (Ret tt, w)
    end.

(** [open], lines 42-54. *)
Definition open : M unit :=
  fun w =>
    let s := SESSION w in
    match _c s with
    | Some _ => (Ret tt, w)
    | None =>
        (send (Connect (uri s)) ;;
         set_c (Some (clock w)) ;;
         send Enter ;;
         ok <- (if truthy (api_key s)
                then send (Rpc "auth.login_with_api_key" [api_key s])
                else send (Rpc "auth.login" [user s; password s])) ;;
         if negb (truthy ok)
         then close ;; raise (SystemExit LoginFailed)
         else ret tt) w
    end.

(** The [for attempt in range(_retries + 1)] loop of [call], lines
    68-79, from [attempt] on with [todo] iterations left.  When the
    range is used up the function ends without a [return]: its value
    is None. *)
Fixpoint call_loop (method : string) (params : list doc) (_backoff : Z)
         (attempt : nat) (todo : nat) : M doc :=
  match todo with
  | O => ret DNone
  | S todo' =>
      try_except
        (send (Rpc method params))
        (fun e =>
           match e with
           | Exception text =>
               let msg := lower text in
               if transient msg
               then sleep (_backoff * (Z.of_nat attempt + 1)) ;;
                    close ;;
                    open ;;
                    call_loop method params _backoff (S attempt) todo'
               else raise e
           | _ => raise e
           end)
  end.

(** [call], lines 63-79. *)
Definition call (method : string) (params : list doc)
           (_retries : Z) (_backoff : Z) : M doc :=
  open ;;
  call_loop method params _backoff 0 (Z.to_nat (_retries + 1)).

(** [SESSION.call(method, *params)] with the default [_retries=1],
    [_backoff=1.0]. *)
Definition SESSION_call (method : string) (params : list doc) : M doc :=
  call method params 1 1.

(** *** The API interactions, lines 88-174 *)

(** [validate_truenas], lines 88-96. *)
Definition validate_truenas : M unit :=
  status <- SESSION_call "docker.status" [] ;;
  st <- py_get status "status" ;;
  if py_eq st (DStr "RUNNING") then ret tt
  else if py_eq st (DStr "UNCONFIGURED")
       then raise (SystemExit DockerUnconfigured)
       else raise (SystemExit (DockerUnhealthy st)).

(** [state in ("SUCCESS", "FAILED", "ABORTED")] *)
Definition terminal (state : doc) : bool :=
  py_eq state (DStr "SUCCESS") || py_eq state (DStr "FAILED") ||
  py_eq state (DStr "ABORTED").

(** The [while True] loop of [watch_job], lines 103-134; [fuel]
    bounds the number of polls. *)
Fixpoint watch_loop (fuel : nat) (job_id : doc) (poll : Z) (raw_result : doc)
         (last_percent last_desc last_excerpt : doc) : M doc :=
  match fuel with
  | O => fun w => (Spin, w)
  | S fuel' =>
      job <- SESSION_call "core.get_jobs"
               [DList [DList [DStr "id"; DStr "="; job_id]];
                DDict [("get", DBool true);
                       ("extra", DDict [("raw_result", raw_result)])]] ;;
      state <- py_get job "state" ;;
      progress <- py_get job "progress" ;;
      let prog := if truthy progress then progress else DDict [] in
      pct <- py_get prog "percent" ;;
      desc <- py_get prog "description" ;;
      logs <- py_get job "logs_excerpt" ;;
      error <- py_get job "error" ;;
      err <- (if truthy error then ret error
              else py_get job "result_encoding_error") ;;
      last <- (if py_ne pct last_percent || py_ne desc last_desc
               then (if truthy desc then concat_str desc else ret tt) ;;
                    print (JobStatus job_id state pct desc) ;;
                    ret (pct, desc)
               else ret (last_percent, last_desc)) ;;
      last_excerpt' <- (if truthy logs && py_ne logs last_excerpt
                        then print (JobLogs job_id logs) ;; ret logs
                        else ret last_excerpt) ;;
      if terminal state
      then (if py_eq state (DStr "SUCCESS")
            then print (JobFinished job_id)
            else print (JobEnded job_id state err)) ;;
           ret job
      else sleep poll ;;
           watch_loop fuel' job_id poll raw_result
                      (fst last) (snd last) last_excerpt'
  end.

(** [watch_job], lines 98-134. *)
Definition watch_job (fuel : nat) (job_id : doc) (poll : Z) (raw_result : doc) : M doc :=
  watch_loop fuel job_id poll raw_result DNone DNone DNone.

(** [update_app], lines 136-144. *)
Definition update_app (fuel : nat) (app_name : string) (compose : bool)
           (desired_spec : doc) : M unit :=
  let desired_spec :=
    if compose
    then DDict [("custom_compose_config", desired_spec)]
    else DDict [("values", DDict [])] in
  job_id <- SESSION_call "app.update" [DStr app_name; desired_spec] ;;
  watch_job fuel job_id 1 (DBool true) ;;
  ret tt.

(** [validate_and_normalize], lines 195-210. *)
Definition validate_and_normalize (p : path) : M doc :=
  let text := read_text p in
  let ext := lower (suffix p) in
  data <- (if String.eqb ext ".yaml" || String.eqb ext ".yml"
           then match yaml_safe_load text with
                | Data d => ret d
                | ParseError e =>
                    raise (Exception (name p ++ " is not valid "
                                        ++ lstrip_dot ext ++ ": " ++ e))
                end
           else if String.eqb ext ".json"
           then match json_loads text with
                | Data d => ret d
                | ParseError e =>
                    raise (Exception (name p ++ " is not valid "
                                        ++ lstrip_dot ext ++ ": " ++ e))
                end
           else raise (Exception (full p ++ " must be .yaml, .yml, or .json"))) ;;
  match data with
  | DDict _ => ret data
  | _ => raise (Exception (name p ++ " must contain a top-level object/dict"))
  end.

(** [deploy_app], lines 146-174. *)
Definition deploy_app (fuel : nat) (file_path : path) (is_compose : bool) : M unit :=
  let app_name := stem file_path in
  desired_config <- validate_and_normalize file_path ;;
  app_exists <- SESSION_call "app.query"
                  [DList [DList [DStr "name"; DStr "="; DStr app_name]];
                   DDict [("limit", DInt 1)]] ;;
  if truthy app_exists
  then
    current_config <- SESSION_call "app.config" [DStr app_name] ;;
    let needs_update := negb (json_equivalent desired_config current_config) in
    if needs_update
    then print (Update app_name) ;;
         update_app fuel app_name is_compose desired_config
    else print (Skip app_name)
  else if negb (truthy app_exists)
  then
    if is_compose
    then
      let payload := DDict [("app_name", DStr app_name);
                            ("custom_app", DBool true);
                            ("custom_compose_config", desired_config)] in
      print (Create app_name) ;;
      job_id <- SESSION_call "app.create" [payload] ;;
      watch_job fuel job_id 1 (DBool true) ;;
      ret tt
    else
      print (CreateCatalog app_name) ;;
      let payload := desired_config in
      job_id <- SESSION_call "app.create" [payload] ;;
      watch_job fuel job_id 1 (DBool true) ;;
      ret tt
  else ret tt.

(** *** The main program, lines 239-249 *)

(** [for file in sorted(...): if file.is_file(): deploy_app(file, True)] *)
Fixpoint deploy_all (fuel : nat) (files : list path) : M unit :=
  match files with
  | [] => ret tt
  | file :: rest =>
      (if is_file file then deploy_app fuel file true else ret tt) ;;
      deploy_all fuel rest
  end.

(** The entries of one directory sort by their names. *)
Definition sorted_paths (entries : list path) : list path :=
  sorted_by String.leb name entries.

Definition main (fuel : nat) (entries : list path) : M unit :=
  open ;;
  validate_truenas ;;
  deploy_all fuel (sorted_paths entries).

End Program.

(** The world at startup: [SESSION = TNSession(ws_uri, user=args.user,
    password=password)], nothing sent, nothing printed. *)
Definition startup (ws_uri : string) (args_user pw : doc) : world :=
  mkWorld (mkSession ws_uri args_user pw DNone None) 0 [].

(** ** Words of the specification *)

(** Two documents that differ only in the order of the keys of their
    mappings and in the order of the elements of their lists, at any
    depth. *)
#[warnings="-register-all"]
Inductive differ_only_in_order : doc -> doc -> Prop :=
| same_doc d : differ_only_in_order d d
| reordered_list xs ys zs :
    Forall2 differ_only_in_order xs ys ->
    Permutation ys zs ->
    differ_only_in_order (DList xs) (DList zs)
| reordered_dict kvs kvs' kvs'' :
    Forall2 (fun p q => fst p = fst q /\ differ_only_in_order (snd p) (snd q)) kvs kvs' ->
    Permutation kvs' kvs'' ->
    differ_only_in_order (DDict kvs) (DDict kvs'').

(** The status lines of a log, and the requests of one RPC method. *)
Fixpoint status_lines (l : list event) : list line :=
  match l with
  | [] => []
  | Printed (JobStatus j s p d) :: r => JobStatus j s p d :: status_lines r
  | _ :: r => status_lines r
  end.

Fixpoint rpcs (method : string) (l : list event) : list (list doc) :=
  match l with
  | [] => []
  | Sent (Rpc m ps) _ :: r =>
      if String.eqb m method then ps :: rpcs method r else rpcs method r
  | _ :: r => rpcs method r
  end.


(** The login that [open] sends for a session. *)
Definition login_request (s : TNSession) : request :=
  if truthy (api_key s)
  then Rpc "auth.login_with_api_key" [api_key s]
  else Rpc "auth.login" [user s; password s].

(** The transport answers a request without raising; it answers it with
    a truthy value. *)
Definition accepts (tr : transport) (t : nat) (rq : request) : bool :=
  match tr t rq with Ok _ => true | Fail _ => false end.

Definition grants (tr : transport) (t : nat) (rq : request) : bool :=
  match tr t rq with Ok v => truthy v | Fail _ => false end.

(** ** Examples *)

(** [{"k": [[2, 1], [1, 3]]}] and [{"k": [[1, 2], [1, 3]]}] *)
Definition nested_lists : doc :=
  DDict [("k", DList [DList [DInt 2; DInt 1]; DList [DInt 1; DInt 3]])].

Definition nested_lists_reordered : doc :=
  DDict [("k", DList [DList [DInt 1; DInt 2]; DList [DInt 1; DInt 3]])].

(** A host that takes connections and logins and then drops every
    call: "Connection closed". *)
Definition shut_host : transport :=
  fun _ rq =>
    match rq with
    | Rpc m _ =>
        if String.eqb m "auth.login" then Ok (DBool true)
        else Fail (Exception "Connection closed")
    | _ => Ok DNone
    end.

(** The world at the start of a run against [ws://nas/api/current]. *)
Definition at_startup : world :=
  startup "ws://nas/api/current" (DStr "admin") (DStr "secret").

(** ** The job record, as the watcher reads it *)

(** [d.get(k)] on a record; None for a missing key. *)
Definition field (k : string) (d : doc) : doc :=
  match d with
  | DDict kvs => match dict_get k kvs with Some v => v | None => DNone end
  | _ => DNone
  end.

Definition state_of (job : doc) : doc := field "state" job.

(** [job.get("progress") or {}] *)
Definition progress_of (job : doc) : doc :=
  if truthy (field "progress" job) then field "progress" job else DDict [].

Definition percent_of (job : doc) : doc := field "percent" (progress_of job).

Definition description_of (job : doc) : doc := field "description" (progress_of job).

Definition logs_of (job : doc) : doc := field "logs_excerpt" job.

(** [job.get("error") or job.get("result_encoding_error")] *)
Definition error_of (job : doc) : doc :=
  if truthy (field "error" job) then field "error" job
  else field "result_encoding_error" job.

Definition is_dict (d : doc) : bool :=
  match d with DDict _ => true | _ => false end.

(** A job record of the data model: a mapping whose progress, when
    there is one, is a mapping, and whose description, when there is
    one, is a string. *)
Definition job_record (job : doc) : bool :=
  is_dict job && is_dict (progress_of job) &&
  match description_of job with
  | DStr _ => true
  | d => negb (truthy d)
  end.

(** The request of one poll. *)
Definition get_jobs_params (job_id raw_result : doc) : list doc :=
  [DList [DList [DStr "id"; DStr "="; job_id]];
   DDict [("get", DBool true); ("extra", DDict [("raw_result", raw_result)])]].

Definition get_jobs (job_id raw_result : doc) : request :=
  Rpc "core.get_jobs" (get_jobs_params job_id raw_result).

(** The progress lines that the watcher is to print for the records it
    polls, in the words of the specification: the line of a record
    whose percent or description differs from the pair printed last
    ([last]; None and None before the first line). *)
Fixpoint progress_lines (job_id : doc) (last : doc * doc) (records : list doc) : list line :=
  match records with
  | [] => []
  | job :: rest =>
      if py_ne (percent_of job) (fst last) || py_ne (description_of job) (snd last)
      then JobStatus job_id (state_of job) (percent_of job) (description_of job)
             :: progress_lines job_id (percent_of job, description_of job) rest
      else progress_lines job_id last rest
  end.

(** The summary line of a record in a terminal state. *)
Definition summary_line (job_id job : doc) : line :=
  if py_eq (state_of job) (DStr "SUCCESS") then JobFinished job_id
  else JobEnded job_id (state_of job) (error_of job).

(** A record that is still running: a job record in no terminal state;
    a record that ends the watch. *)
Definition running (job : doc) : bool :=
  job_record job && negb (terminal (state_of job)).

Definition ended (job : doc) : bool :=
  job_record job && terminal (state_of job).

(** What the polls of a watch leave in the log when the transport
    answers them with the records [jobs], in this order: the request,
    the status line when the pair changed, the excerpt when it changed,
    then the sleep, or the summary at the record that ends the watch. *)
Fixpoint watch_log (job_id : doc) (poll : Z) (raw_result : doc)
         (last_percent last_desc last_excerpt : doc) (jobs : list doc) : list event :=
  match jobs with
  | [] => []
  | job :: rest =>
      let changed := py_ne (percent_of job) last_percent
                     || py_ne (description_of job) last_desc in
      let fresh := truthy (logs_of job) && py_ne (logs_of job) last_excerpt in
      [Sent (get_jobs job_id raw_result) (Ok job)]
      ++ (if changed
          then [Printed (JobStatus job_id (state_of job) (percent_of job)
                                   (description_of job))]
          else [])
      ++ (if fresh then [Printed (JobLogs job_id (logs_of job))] else [])
      ++ (if ended job
          then [Printed (summary_line job_id job)]
          else Slept poll ::
               watch_log job_id poll raw_result
                 (if changed then percent_of job else last_percent)
                 (if changed then description_of job else last_desc)
                 (if fresh then logs_of job else last_excerpt)
                 rest)
  end.

(** ** Hosts and worlds of the examples *)

(** A host that answers its [t]-th request with the [t]-th reply of a
    script, and drops what comes after. *)
Definition scripted (script : list reply) : transport :=
  fun t _ => nth t script (Fail (Exception "Connection closed")).

(** The replies to a connection, an entry and a login. *)
Definition welcome : list reply := [Ok DNone; Ok DNone; Ok (DBool true)].

(** The record of job 7 in a state, at a percentage. *)
Definition job_at (state : string) (pct : Z) : doc :=
  DDict [("id", DInt 7); ("state", DStr state);
         ("progress", DDict [("percent", DInt pct); ("description", DNone)])].

(** Percent 0, 50, 50, 100, then SUCCESS. *)
Definition four_polls : list doc :=
  [job_at "RUNNING" 0; job_at "RUNNING" 50; job_at "RUNNING" 50; job_at "RUNNING" 100].

Definition fifth_poll : doc := job_at "SUCCESS" 100.

Definition job_host : transport :=
  scripted (welcome ++ map Ok (four_polls ++ [fifth_poll])).

(** The world after [SESSION.open()] at startup, on a host. *)
Definition logged_in (tr : transport) : world := snd (open tr at_startup).

(** The query of [deploy_app] for the application of a name. *)
Definition app_query (app_name : string) : request :=
  Rpc "app.query"
      [DList [DList [DStr "name"; DStr "="; DStr app_name]];
       DDict [("limit", DInt 1)]].

(** The payload of a creation in compose mode. *)
Definition compose_payload (app_name : string) (desired_config : doc) : doc :=
  DDict [("app_name", DStr app_name);
         ("custom_app", DBool true);
         ("custom_compose_config", desired_config)].

(** The spec that [update_app] sends. *)
Definition update_spec (compose : bool) (desired_spec : doc) : doc :=
  if compose
  then DDict [("custom_compose_config", desired_spec)]
  else DDict [("values", DDict [])].

(** [{"services": {"web": {"image": "nginx"}}}], in the file
    [/apps/web.yaml]; the same document as the host may hold it, with
    another key after the first. *)
Definition web_nginx : doc :=
  DDict [("services", DDict [("web", DDict [("image", DStr "nginx")])])].

Definition web_yaml : path :=
  mkPath "/apps/web.yaml" "web.yaml" "web" ".yaml" true "services: ...".

Definition web_two_keys : doc :=
  DDict [("version", DInt 3);
         ("services", DDict [("web", DDict [("image", DStr "nginx");
                                             ("ports", DList [DInt 443; DInt 80])])])].

Definition web_two_keys_on_host : doc :=
  DDict [("services", DDict [("web", DDict [("ports", DList [DInt 80; DInt 443]);
                                             ("image", DStr "nginx")])]);
         ("version", DInt 3)].

(** Parsers that read one document out of every text. *)
Definition reads (d : doc) : string -> parsed := fun _ => Data d.

(** A host without the application: the query finds nothing, the
    creation starts job 7, which ends at the fifth poll. *)
Definition empty_host : transport :=
  scripted (welcome ++ [Ok (DList []); Ok (DInt 7)]
            ++ map Ok (four_polls ++ [fifth_poll])).

(** A host that starts job 7 on the first call and reports it. *)
Definition busy_host : transport :=
  scripted (welcome ++ [Ok (DInt 7)] ++ map Ok (four_polls ++ [fifth_poll])).

(** A host that has the application, with the configuration
    [web_two_keys_on_host]. *)
Definition settled_host : transport :=
  scripted (welcome ++ [Ok (DList [DDict [("name", DStr "web")]]);
                        Ok web_two_keys_on_host]).

(** A host whose Docker service is in a given state. *)
Definition docker_host (status : string) : transport :=
  scripted (welcome ++ [Ok (DDict [("status", DStr status)])]).

(** A host that drops the first call after the login, takes the
    session back, and then answers: the Docker service is running. *)
Definition flaky_host : transport :=
  scripted (welcome ++ [Fail (Exception "Connection closed")]
            ++ [Ok DNone] ++ welcome
            ++ [Ok (DDict [("status", DStr "RUNNING")])]).

(** ** More of the program *)

(** The sleeps of a log, in seconds. *)
Fixpoint sleeps (l : list event) : list Z :=
  match l with
  | [] => []
  | Slept secs :: r => secs :: sleeps r
  | _ :: r => sleeps r
  end.




Definition denying_host : transport :=
  scripted (welcome ++ [Fail (Exception "Permission denied")]).

(** [x] comes before [y] in the order of the keys. *)
Definition key_le {A K : Type} (leb : K -> K -> bool) (key : A -> K) (x y : A) : Prop :=
  leb (key x) (key y) = true.

(** [x] comes before [y] by the JSON text of the two. *)
Definition dumps_le (x y : doc) : Prop :=
  match Json.dumps x, Json.dumps y with
  | Some a, Some b => String.leb a b = true
  | _, _ => False
  end.

(** A list with a date among its elements: [[3, 2020-01-01, 1]]. *)
Definition with_a_date : list doc := [DInt 3; DDate 737425; DInt 1].

(** A document without a list, and a document whose lists hold
    documents without a list (mappings and scalars). *)
Fixpoint listfree (d : doc) : bool :=
  match d with
  | DList _ => false
  | DDict kvs =>
      (fix all (l : list (string * doc)) : bool :=
         match l with [] => true | (_, v) :: r => listfree v && all r end) kvs
  | _ => true
  end.

Fixpoint flat_lists (d : doc) : bool :=
  match d with
  | DList xs => forallb listfree xs
  | DDict kvs =>
      (fix all (l : list (string * doc)) : bool :=
         match l with [] => true | (_, v) :: r => flat_lists v && all r end) kvs
  | _ => true
  end.

(** An entry with its value made canonical. *)
Definition canonical_entry (kv : string * doc) : string * doc :=
  (fst kv, canonicalize (snd kv)).

(** [{"ports": [{"target": 80, "published": 8080}, 443],
      "image": "nginx"}] *)
Definition web_ports : doc :=
  DDict [("ports", DList [DDict [("target", DInt 80); ("published", DInt 8080)];
                          DInt 443]);
         ("image", DStr "nginx")].

(** The extensions that [validate_and_normalize] reads, and the parser
    that it takes for one of them. *)
Definition supported (ext : string) : bool :=
  String.eqb ext ".yaml" || String.eqb ext ".yml" || String.eqb ext ".json".

Definition parser_of (yaml_safe_load json_loads : string -> parsed) (ext : string)
  : string -> parsed :=
  if String.eqb ext ".yaml" || String.eqb ext ".yml" then yaml_safe_load else json_loads.

(** Files of the examples: a text file, a JSON file with a list in it
    and an upper-case extension, a directory. *)
Definition notes_txt : path :=
  mkPath "/apps/notes.txt" "notes.txt" "notes" ".txt" true "remember the milk".

Definition list_json : path :=
  mkPath "/apps/list.JSON" "list.JSON" "list" ".JSON" true "[1, 2]".

Definition backup_dir : path :=
  mkPath "/apps/backup" "backup" "backup" "" false "".

(** A parser that rejects every text. *)
Definition rejects (e : string) : string -> parsed := fun _ => ParseError e.

(** A host that has the application with another configuration: the
    update starts job 7. *)
Definition drifted_host : transport :=
  scripted (welcome ++ [Ok (DList [DDict [("name", DStr "web")]]);
                        Ok web_nginx; Ok (DInt 7)]
            ++ map Ok (four_polls ++ [fifth_poll])).

(** A host whose Docker service runs, and nothing more. *)
Definition idle_host : transport := docker_host "RUNNING".

(** The excerpts of the logs that a log shows. *)
Fixpoint logs_lines (l : list event) : list line :=
  match l with
  | [] => []
  | Printed (JobLogs j x) :: r => JobLogs j x :: logs_lines r
  | _ :: r => logs_lines r
  end.

(** The excerpts that the watcher is to print for the records it polls:
    the excerpt of a record when it is truthy and differs from the
    excerpt printed last ([last]; None before the first one). *)
Fixpoint excerpt_lines (job_id : doc) (last : doc) (records : list doc) : list line :=
  match records with
  | [] => []
  | job :: rest =>
      if truthy (logs_of job) && py_ne (logs_of job) last
      then JobLogs job_id (logs_of job) :: excerpt_lines job_id (logs_of job) rest
      else excerpt_lines job_id last rest
  end.

(** What the watcher remembers after the records [rs], none of which
    ends the watch: the pair printed last and the excerpt printed
    last. *)
Fixpoint seen (lp ld le : doc) (rs : list doc) : doc * doc * doc :=
  match rs with
  | [] => (lp, ld, le)
  | job :: rest =>
      let changed := py_ne (percent_of job) lp || py_ne (description_of job) ld in
      let fresh := truthy (logs_of job) && py_ne (logs_of job) le in
      seen (if changed then percent_of job else lp)
           (if changed then description_of job else ld)
           (if fresh then logs_of job else le)
           rest
  end.



(** The record of job 7 with an excerpt of its logs. *)
Definition job_with_logs (state logs : string) : doc :=
  DDict [("id", DInt 7); ("state", DStr state); ("logs_excerpt", DStr logs);
         ("error", DStr "out of space")].

Definition three_excerpts : list doc :=
  [job_with_logs "RUNNING" "pulling"; job_with_logs "RUNNING" "pulling";
   job_with_logs "RUNNING" "pulling, unpacking"].

Definition failed_poll : doc := job_with_logs "FAILED" "pulling, unpacking".

Definition failing_job_host : transport :=
  scripted (welcome ++ map Ok (three_excerpts ++ [failed_poll])).

(** A host that answers the first poll with None, and one that denies
    the second poll. *)
Definition null_host : transport := scripted (welcome ++ [Ok DNone]).

Definition denied_poll_host : transport :=
  scripted (welcome ++ [Ok (job_at "RUNNING" 0); Fail (Exception "Permission denied")]).

(** [extract_current_spec], lines 178-189.  In compose mode the
    function calls [get_app_config], a name that the module does not
    define: the call raises a NameError.  Otherwise the loop over the
    three keys returns at the first one that is bound to a mapping. *)
Fixpoint first_values (app_obj : doc) (keys : list string) : M doc :=
  match keys with
  | [] => ret (DDict [])
  | k :: rest =>
      v <- py_get app_obj k ;;
      if is_dict v then ret (DDict [("values", v)])
      else first_values app_obj rest
  end.

Definition extract_current_spec (app_obj : doc) (compose : bool) : M doc :=
  if compose
  then raise (Exception "name 'get_app_config' is not defined")
  else first_values app_obj ["values"; "config"; "chart_values"].

(** The record of an application with its chart values under
    [config]. *)
Definition chart_app : doc :=
  DDict [("name", DStr "web"); ("values", DNone);
         ("config", DDict [("replicas", DInt 2)]);
         ("chart_values", DDict [("replicas", DInt 3)])].

Local Open Scope list_scope.
(** ** Sorting *)

Section SortingFacts.
Context {A K : Type}.
Variable leb : K -> K -> bool.
Variable key : A -> K.

Lemma insert_by_perm (x : A) (l : list A) :
  Permutation (insert_by leb key x l) (x :: l).
Proof.
  induction l as [|y r IH]; simpl.
  - apply Permutation_refl.
  - destruct (leb (key x) (key y)).
    + apply Permutation_refl.
    + eapply perm_trans; [apply perm_skip, IH | apply perm_swap].
Qed.

Lemma sorted_by_perm (l : list A) : Permutation (sorted_by leb key l) l.
Proof.
  induction l as [|x r IH]; simpl.
  - constructor.
  - eapply perm_trans; [apply insert_by_perm | apply perm_skip, IH].
Qed.

(** Sorting commutes with a map that keeps the keys. *)
Lemma sorted_by_map {B : Type} (key' : B -> K) (f : A -> B) (l : list A) :
  (forall x, key' (f x) = key x) ->
  sorted_by leb key' (map f l) = map f (sorted_by leb key l).
Proof.
  intros Hk.
  assert (Hins : forall x s,
             insert_by leb key' (f x) (map f s) = map f (insert_by leb key x s)).
  { intros x s. induction s as [|y s IH]; simpl; [reflexivity|].
    rewrite !Hk. destruct (leb (key x) (key y)); simpl; [reflexivity|].
    now rewrite IH. }
  induction l as [|x r IH]; simpl; [reflexivity|].
  now rewrite IH, Hins.
Qed.
End SortingFacts.

Lemma all_keys_map {A B K : Type} (f : A -> option K) (g : A -> B) (l : list A) :
  all_keys (map (fun x => (f x, g x)) l) =
  option_map (map (fun p => (fst p, g (snd p))))
             (all_keys (map (fun x => (f x, x)) l)).
Proof.
  induction l as [|x r IH]; simpl; [reflexivity|].
  destruct (f x) as [k|]; [|reflexivity].
  rewrite IH. now destruct (all_keys (map (fun x0 => (f x0, x0)) r)).
Qed.

(** ** The canonicalizer, as the source writes it *)

(** The list branch: [[canonicalize(x) for x in sorted(obj, key=...)]],
    or the elements in their own order when a key cannot be computed. *)
Lemma canonicalize_list (xs : list doc) :
  canonicalize (DList xs) =
  match py_sorted Json.dumps xs with
  | Some ys => DList (map canonicalize ys)
  | None => DList (map canonicalize xs)
  end.
Proof.
  assert (Hgo : forall l,
             (fix go (l : list doc) : list (option string * doc) :=
                match l with
                | [] => []
                | x :: r => (Json.dumps x, canonicalize x) :: go r
                end) l = map (fun x => (Json.dumps x, canonicalize x)) l).
  { induction l as [|x r IH]; [reflexivity|]. now rewrite IH. }
  simpl. rewrite Hgo. unfold py_sorted.
  rewrite (all_keys_map Json.dumps canonicalize).
  destruct (all_keys (map (fun x => (Json.dumps x, x)) xs)) as [dec|]; simpl.
  - f_equal.
    rewrite (sorted_by_map String.leb fst fst
               (fun p : string * doc => (fst p, canonicalize (snd p)))) by reflexivity.
    rewrite !map_map. reflexivity.
  - f_equal. rewrite map_map. reflexivity.
Qed.

(** The dict branch: [{k: canonicalize(obj[k]) for k in sorted(obj.keys())}]. *)
Lemma canonicalize_dict (kvs : list (string * doc)) :
  canonicalize (DDict kvs) =
  DDict (flat_map (fun k => match dict_get k kvs with
                            | Some v => [(k, canonicalize v)]
                            | None => []
                            end) (sorted_str (map fst kvs))).
Proof.
  assert (Hgo : forall l,
             (fix go (l : list (string * doc)) : list (string * doc) :=
                match l with
                | [] => []
                | (k, v) :: r => (k, canonicalize v) :: go r
                end) l = map (fun kv => (fst kv, canonicalize (snd kv))) l).
  { induction l as [|[k v] r IH]; [reflexivity|]. now rewrite IH. }
  simpl. rewrite Hgo. f_equal. unfold dict_of_keys.
  apply flat_map_ext. intros k.
  induction kvs as [|[k' v] r IH]; simpl; [reflexivity|].
  destruct (String.eqb k k'); [reflexivity | exact IH].
Qed.

(** *** What [canonicalize] keeps *)

Lemma sorted_str_perm (l : list string) : Permutation (sorted_str l) l.
Proof. apply sorted_by_perm. Qed.

Lemma dict_get_In (k : string) (kvs : list (string * doc)) :
  In k (map fst kvs) <-> dict_get k kvs <> None.
Proof.
  induction kvs as [|[k' v] r IH]; simpl.
  - split; [tauto | congruence].
  - destruct (String.eqb_spec k k') as [->|Hne].
    + split; [congruence | auto].
    + rewrite <- IH. split; [intros [H|H]; [congruence | exact H] | auto].
Qed.

Section Comprehension.
Variable kvs : list (string * doc).

Let entry (k : string) : list (string * doc) :=
  match dict_get k kvs with
  | Some v => [(k, canonicalize v)]
  | None => []
  end.

Lemma comprehension_keys (ks : list string) :
  (forall k, In k ks -> In k (map fst kvs)) ->
  map fst (flat_map entry ks) = ks.
Proof.
  induction ks as [|k r IH]; simpl; intros Hin; [reflexivity|].
  rewrite map_app, IH by auto. unfold entry.
  destruct (dict_get k kvs) eqn:E; [reflexivity|].
  exfalso. apply (proj1 (dict_get_In k kvs)); auto.
Qed.

Lemma comprehension_get (ks : list string) (k : string) :
  dict_get k (flat_map entry ks) =
  if existsb (String.eqb k) ks
  then option_map canonicalize (dict_get k kvs) else None.
Proof.
  induction ks as [|k0 r IH]; simpl; [reflexivity|].
  unfold entry at 1.
  destruct (String.eqb_spec k k0) as [->|Hne]; simpl.
  - destruct (dict_get k0 kvs) as [v|] eqn:E; simpl.
    + now rewrite String.eqb_refl.
    + rewrite IH. now destruct (existsb (String.eqb k0) r).
  - destruct (dict_get k0 kvs) as [v|] eqn:E; simpl; [|exact IH].
    destruct (String.eqb_spec k k0); [contradiction | exact IH].
Qed.
End Comprehension.

(** [sorted] only reorders. *)
Lemma py_sorted_perm {A : Type} (f : A -> option string) (l ys : list A) :
  py_sorted f l = Some ys -> Permutation ys l.
Proof.
  unfold py_sorted.
  destruct (all_keys (map (fun x => (f x, x)) l)) as [dec|] eqn:E; [|discriminate].
  simpl. intros H. inversion H; subst. clear H.
  assert (Hdec : map snd dec = l).
  { revert dec E. induction l as [|x r IH]; simpl; intros dec E.
    - now inversion E.
    - destruct (f x); [|discriminate].
      destruct (all_keys (map (fun x0 => (f x0, x0)) r)) as [d'|]; [|discriminate].
      inversion E; subst. simpl. f_equal. now apply IH. }
  rewrite <- Hdec. apply Permutation_map, sorted_by_perm.
Qed.

(** C10. [canonicalize] only reorders: a mapping keeps its keys (the
    keys of the result are a permutation of the keys of the input) and
    binds each to the canonical form of its value; a list becomes a
    permutation of the canonical forms of its elements, of the same
    length; None, a bool, an int, a str and a date come back as they
    are. *)
Theorem canonicalize_preserves_structure :
  (forall kvs, exists out,
      canonicalize (DDict kvs) = DDict out /\
      Permutation (map fst out) (map fst kvs) /\
      forall k, dict_get k out = option_map canonicalize (dict_get k kvs)) /\
  (forall xs, exists out,
      canonicalize (DList xs) = DList out /\
      Permutation out (map canonicalize xs) /\
      List.length out = List.length xs) /\
  canonicalize DNone = DNone /\
  (forall b, canonicalize (DBool b) = DBool b) /\
  (forall n, canonicalize (DInt n) = DInt n) /\
  (forall s, canonicalize (DStr s) = DStr s) /\
  (forall d, canonicalize (DDate d) = DDate d).
Proof.
  split; [|split; [|repeat split]].
  - intros kvs. eexists. split; [apply canonicalize_dict|]. split.
    + rewrite comprehension_keys.
      * apply sorted_str_perm.
      * intros k Hk. eapply Permutation_in; [apply sorted_str_perm | exact Hk].
    + intros k. rewrite comprehension_get.
      destruct (existsb (String.eqb k) (sorted_str (map fst kvs))) eqn:E;
        [reflexivity|].
      destruct (dict_get k kvs) as [v|] eqn:G; [|reflexivity].
      exfalso.
      assert (Hin : In k (sorted_str (map fst kvs))).
      { eapply Permutation_in;
          [apply Permutation_sym, sorted_str_perm
          | apply dict_get_In; congruence]. }
      assert (Hex : existsb (String.eqb k) (sorted_str (map fst kvs)) = true).
      { apply existsb_exists. exists k. split; [exact Hin | apply String.eqb_refl]. }
      congruence.
  - intros xs. rewrite canonicalize_list.
    destruct (py_sorted Json.dumps xs) as [ys|] eqn:E.
    + exists (map canonicalize ys). split; [reflexivity|].
      assert (Hp : Permutation (map canonicalize ys) (map canonicalize xs)).
      { apply Permutation_map, (py_sorted_perm _ _ _ E). }
      split; [exact Hp|].
      rewrite (Permutation_length Hp). apply length_map.
    + eexists. split; [reflexivity|].
      split; [apply Permutation_refl | apply length_map].
Qed.

(** ** The canonical form is not canonical below a list of lists *)

(** C2. [canonicalize] is not idempotent: the elements of a list are
    ordered by the serialisation they have before they are made
    canonical.  On [{"k": [[2, 1], [1, 3]]}] the first pass gives
    [{"k": [[1, 3], [1, 2]]}] and the second [{"k": [[1, 2], [1, 3]]}]. *)
Theorem canonicalize_twice_differs :
  canonicalize nested_lists =
    DDict [("k", DList [DList [DInt 1; DInt 3]; DList [DInt 1; DInt 2]])] /\
  canonicalize (canonicalize nested_lists) =
    DDict [("k", DList [DList [DInt 1; DInt 2]; DList [DInt 1; DInt 3]])] /\
  py_eq (canonicalize (canonicalize nested_lists)) (canonicalize nested_lists) = false.
Proof. repeat split; vm_compute; reflexivity. Qed.

(** C3. [json_equivalent] tells apart two serialisable documents that
    differ only in the order of the elements of a list inside a list:
    [{"k": [[2, 1], [1, 3]]}] and [{"k": [[1, 2], [1, 3]]}]. *)
Theorem json_equivalent_sees_nested_list_order :
  differ_only_in_order nested_lists nested_lists_reordered /\
  Json.dumps nested_lists <> None /\
  Json.dumps nested_lists_reordered <> None /\
  json_equivalent nested_lists nested_lists_reordered = false.
Proof.
  split; [|repeat split; vm_compute; congruence].
  unfold nested_lists, nested_lists_reordered.
  eapply reordered_dict; [|apply Permutation_refl].
  constructor; [|constructor]. split; [reflexivity|]. simpl.
  eapply reordered_list; [|apply Permutation_refl].
  constructor; [|constructor; [apply same_doc | constructor]].
  eapply reordered_list with (ys := [DInt 2; DInt 1]).
  - repeat constructor.
  - apply perm_swap.
Qed.

(** ** The session manager *)

(** C1. When every attempt raises a transient error, [call] does not
    raise: the loop over the attempts ends and the function returns
    None.  Against a host that drops every call, the default budget
    makes two attempts at ["docker.status"] and returns None. *)
Theorem call_returns_None_when_budget_runs_out :
  transient (lower "Connection closed") = true /\
  fst (SESSION_call shut_host "docker.status" [] at_startup) = Ret DNone /\
  rpcs "docker.status" (log (snd (SESSION_call shut_host "docker.status" [] at_startup)))
    = [[]; []].
Proof. repeat split; vm_compute; reflexivity. Qed.

(** ** Python's equality on well-formed documents *)

Lemma wf_list (xs : list doc) : wf_doc (DList xs) <-> Forall wf_doc xs.
Proof.
  simpl. induction xs as [|x r IH].
  - split; constructor.
  - split.
    + intros [Hx Hr]. constructor; [exact Hx | now apply IH].
    + intros H. inversion H; subst. split; [assumption | now apply IH].
Qed.

Lemma wf_dict (kvs : list (string * doc)) :
  wf_doc (DDict kvs) <->
  NoDup (map fst kvs) /\ Forall (fun kv => wf_doc (snd kv)) kvs.
Proof.
  simpl.
  assert (H : (fix all (l : list (string * doc)) : Prop :=
                 match l with
                 | [] => True
                 | (_, v) :: r => wf_doc v /\ all r
                 end) kvs <-> Forall (fun kv => wf_doc (snd kv)) kvs).
  { induction kvs as [|[k v] r IH].
    - split; constructor.
    - split.
      + intros [Hv Hr]. constructor; [exact Hv | now apply IH].
      + intros H. inversion H; subst. split; [assumption | now apply IH]. }
  now rewrite H.
Qed.

(** A key of a dict without repeated keys is bound to its own entry. *)
Lemma dict_get_NoDup (kvs : list (string * doc)) (k : string) (v : doc) :
  NoDup (map fst kvs) -> In (k, v) kvs -> dict_get k kvs = Some v.
Proof.
  induction kvs as [|[k' v'] r IH]; simpl; intros Hnd Hin; [contradiction|].
  inversion Hnd as [|? ? Hnotin Hnd']; subst.
  destruct Hin as [E|Hin].
  - inversion E; subst. now rewrite String.eqb_refl.
  - destruct (String.eqb_spec k k') as [->|Hne].
    + exfalso. apply Hnotin. now apply (in_map fst _ (k', v)).
    + now apply IH.
Qed.

Lemma dict_get_Some_In (kvs : list (string * doc)) (k : string) (v : doc) :
  dict_get k kvs = Some v -> In (k, v) kvs.
Proof.
  induction kvs as [|[k' v'] r IH]; simpl; [discriminate|].
  destruct (String.eqb_spec k k') as [->|Hne].
  - intros E. inversion E. now left.
  - intros E. right. now apply IH.
Qed.

(** [py_eq] on two lists and on two dicts, through [list_eqb] and
    [all_in]. *)
Lemma py_eq_list (xs ys : list doc) :
  py_eq (DList xs) (DList ys) = list_eqb py_eq xs ys.
Proof. reflexivity. Qed.

Lemma py_eq_dict (a b : list (string * doc)) :
  py_eq (DDict a) (DDict b) =
  Nat.eqb (List.length a) (List.length b) && all_in py_eq b a.
Proof. reflexivity. Qed.

Lemma all_in_true (f : doc -> doc -> bool) (b a : list (string * doc)) :
  all_in f b a = true <->
  forall k v, In (k, v) a -> exists v', dict_get k b = Some v' /\ f v v' = true.
Proof.
  induction a as [|[k0 v0] r IH]; simpl.
  - split; [intros _ k v [] | reflexivity].
  - rewrite andb_true_iff, IH. split.
    + intros [H0 Hr] k v [E|Hin]; [|now apply Hr].
      inversion E; subst.
      destruct (dict_get k b) as [v'|]; [eauto | discriminate].
    + intros H. split.
      * destruct (H k0 v0 (or_introl eq_refl)) as [v' [-> Hv]]. exact Hv.
      * intros k v Hin. apply H. now right.
Qed.

(** [d == d] *)
Lemma py_eq_refl (d : doc) : wf_doc d -> py_eq d d = true.
Proof.
  induction d as [| b | n | s | o | xs IH | kvs IH] using doc_rect'; intros Hwf.
  - reflexivity.
  - apply Bool.eqb_reflx.
  - apply Z.eqb_refl.
  - apply String.eqb_refl.
  - apply Z.eqb_refl.
  - rewrite py_eq_list. apply wf_list in Hwf.
    induction IH as [|x r Hx Hr IHr]; [reflexivity|].
    inversion Hwf; subst. simpl. rewrite Hx by assumption. now apply IHr.
  - rewrite py_eq_dict, Nat.eqb_refl. apply wf_dict in Hwf as [Hnd Hvals].
    apply all_in_true. intros k v Hin. exists v. split.
    + now apply dict_get_NoDup.
    + rewrite Forall_forall in IH, Hvals.
      apply (IH (k, v) Hin). apply (Hvals (k, v) Hin).
Qed.

(** The keys of two dicts of the same size, without repeated keys, one
    within the other, are the same. *)
Lemma keys_both_ways (a b : list (string * doc)) (f : doc -> doc -> bool) :
  NoDup (map fst a) ->
  List.length a = List.length b ->
  all_in f b a = true ->
  forall k, In k (map fst b) -> In k (map fst a).
Proof.
  intros Hnd Hlen Hall.
  apply NoDup_length_incl; [exact Hnd | now rewrite !length_map, Hlen |].
  intros k Hk. apply in_map_iff in Hk as [[k' v] [E Hin]]. simpl in E. subst k'.
  destruct (proj1 (all_in_true f b a) Hall k v Hin) as [v' [Hget _]].
  apply dict_get_In. congruence.
Qed.

Lemma all_in_swap (a b : list (string * doc)) :
  NoDup (map fst a) -> NoDup (map fst b) ->
  List.length a = List.length b ->
  (forall k v v', In (k, v) a -> In (k, v') b ->
                  py_eq v v' = true -> py_eq v' v = true) ->
  all_in py_eq b a = true -> all_in py_eq a b = true.
Proof.
  intros Ha Hb Hlen Hsym Hall. apply all_in_true. intros k v' Hin.
  assert (Hk : In k (map fst a)).
  { apply (keys_both_ways a b py_eq Ha Hlen Hall). now apply (in_map fst _ (k, v')). }
  apply in_map_iff in Hk as [[k0 v] [E Hin0]]. simpl in E. subst k0.
  exists v. split; [now apply dict_get_NoDup|].
  destruct (proj1 (all_in_true py_eq b a) Hall k v Hin0) as [v2 [Hget Heq]].
  rewrite (dict_get_NoDup b k v' Hb Hin) in Hget. inversion Hget; subst v2.
  now apply (Hsym k v v').
Qed.

(** [a == b] is [b == a] *)
Lemma py_eq_sym (a : doc) :
  wf_doc a -> forall b, wf_doc b -> py_eq a b = py_eq b a.
Proof.
  induction a as [| x | n | s | o | xs IH | kvs IH] using doc_rect';
    intros Hwa b Hwb; destruct b as [| y | m | t | p | ys | kvs']; try reflexivity.
  - simpl. now destruct x, y.
  - simpl. apply Z.eqb_sym.
  - simpl. apply String.eqb_sym.
  - simpl. apply Z.eqb_sym.
  - rewrite !py_eq_list. apply wf_list in Hwa. apply wf_list in Hwb.
    revert ys Hwb. induction IH as [|x r Hx Hr IHr]; intros ys Hwb.
    + now destruct ys.
    + destruct ys as [|y ys]; [reflexivity|].
      inversion Hwa; subst. inversion Hwb; subst. simpl.
      rewrite (Hx ltac:(assumption) y ltac:(assumption)).
      f_equal. now apply IHr.
  - rewrite !py_eq_dict. rewrite Nat.eqb_sym.
    destruct (Nat.eqb_spec (List.length kvs') (List.length kvs)) as [Hlen|]; [|reflexivity].
    simpl. apply wf_dict in Hwa as [Hna Hva]. apply wf_dict in Hwb as [Hnb Hvb].
    rewrite Forall_forall in IH, Hva, Hvb.
    assert (Hsym : forall k v v', In (k, v) kvs -> In (k, v') kvs' ->
                                  py_eq v v' = py_eq v' v).
    { intros k v v' Hin Hin'.
      apply (IH (k, v) Hin (Hva (k, v) Hin) v' (Hvb (k, v') Hin')). }
    apply Bool.eq_iff_eq_true. split; intros Hall.
    + apply all_in_swap; auto.
      intros k v v' Hin Hin' Heq. now rewrite <- (Hsym k v v' Hin Hin').
    + apply all_in_swap; auto.
      intros k v' v Hin' Hin Heq. now rewrite (Hsym k v v' Hin Hin').
Qed.

(** ** The comparison of canonical forms *)

(** The canonical form of a well-formed document is well-formed. *)
Lemma canonicalize_wf (d : doc) : wf_doc d -> wf_doc (canonicalize d).
Proof.
  induction d as [| b | n | s | o | xs IH | kvs IH] using doc_rect';
    intros Hwf; try exact I.
  - apply wf_list in Hwf. rewrite Forall_forall in IH, Hwf.
    rewrite canonicalize_list.
    destruct (py_sorted Json.dumps xs) as [ys|] eqn:E;
      apply wf_list, Forall_forall; intros y Hy;
      apply in_map_iff in Hy as [x [<- Hx]].
    + assert (Hin : In x xs).
      { eapply Permutation_in; [apply (py_sorted_perm _ _ _ E) | exact Hx]. }
      auto.
    + auto.
  - apply wf_dict in Hwf as [Hnd Hvals]. rewrite Forall_forall in IH, Hvals.
    rewrite canonicalize_dict. apply wf_dict. split.
    + rewrite comprehension_keys.
      * eapply Permutation_NoDup; [apply Permutation_sym, sorted_str_perm | exact Hnd].
      * intros k Hk. eapply Permutation_in; [apply sorted_str_perm | exact Hk].
    + apply Forall_forall. intros [k cv] Hin.
      apply in_flat_map in Hin as [k0 [_ Hin]].
      destruct (dict_get k0 kvs) as [v|] eqn:G; [|contradiction].
      destruct Hin as [E|[]]. inversion E; subst. simpl.
      apply dict_get_Some_In in G. apply (IH (k, v) G). apply (Hvals (k, v) G).
Qed.

(** [json_equivalent(a, a)] *)
Lemma json_equivalent_refl (a : doc) : wf_doc a -> json_equivalent a a = true.
Proof. intros H. apply py_eq_refl, canonicalize_wf, H. Qed.

(** [json_equivalent(a, b)] is [json_equivalent(b, a)] *)
Lemma json_equivalent_sym (a b : doc) :
  wf_doc a -> wf_doc b -> json_equivalent a b = json_equivalent b a.
Proof. intros Ha Hb. apply py_eq_sym; now apply canonicalize_wf. Qed.

(** [json_equivalent({"a": 1, "b": 2}, {"b": 2, "a": 1})] *)
Example json_equivalent_key_order :
  json_equivalent (DDict [("a", DInt 1); ("b", DInt 2)])
                  (DDict [("b", DInt 2); ("a", DInt 1)]) = true.
Proof. reflexivity. Qed.

(** A list of scalars in another order, in a mapping. *)
Example json_equivalent_list_order :
  json_equivalent (DDict [("ports", DList [DInt 443; DInt 80; DStr "a"])])
                  (DDict [("ports", DList [DStr "a"; DInt 80; DInt 443])]) = true.
Proof. reflexivity. Qed.

(** *** Steps of the session manager *)

Section SessionFacts.
Variable tr : transport.

Lemma send_ok (rq : request) (w : world) (v : doc) :
  tr (clock w) rq = Ok v -> send tr rq w = (Ret v, sent w rq (Ok v)).
Proof. intros H. unfold send. now rewrite H. Qed.

Lemma send_fail (rq : request) (w : world) (e : exn) :
  tr (clock w) rq = Fail e -> send tr rq w = (Raise e, sent w rq (Fail e)).
Proof. intros H. unfold send. now rewrite H. Qed.

Lemma accepts_ok (t : nat) (rq : request) :
  accepts tr t rq = true -> exists v, tr t rq = Ok v.
Proof. unfold accepts. destruct (tr t rq) as [v|e]; [eauto | discriminate]. Qed.

Lemma grants_ok (t : nat) (rq : request) :
  grants tr t rq = true -> exists v, tr t rq = Ok v /\ truthy v = true.
Proof. unfold grants. destruct (tr t rq) as [v|e]; [eauto | discriminate]. Qed.

(** [open] on an open session does nothing. *)
Lemma open_noop (w : world) (c : nat) :
  _c (SESSION w) = Some c -> open tr w = (Ret tt, w).
Proof. intros H. unfold open. now rewrite H. Qed.

(** [open] on a closed session: connect, enter, log in. *)
Lemma open_connects (w : world) :
  let s := SESSION w in
  let t := clock w in
  _c s = None ->
  accepts tr t (Connect (uri s)) = true ->
  accepts tr (S t) Enter = true ->
  grants tr (S (S t)) (login_request s) = true ->
  open tr w =
  (Ret tt,
   sent (sent (with_c (sent w (Connect (uri s)) (tr t (Connect (uri s))))
                      (Some t))
              Enter (tr (S t) Enter))
        (login_request s) (tr (S (S t)) (login_request s))).
Proof.
  intros s t Hc H1 H2 H3.
  apply accepts_ok in H1 as [v1 E1]. apply accepts_ok in H2 as [v2 E2].
  apply grants_ok in H3 as [v3 [E3 T3]].
  unfold open. fold s. rewrite Hc.
  unfold bind at 1. rewrite (send_ok _ _ _ E1). fold t.
  unfold bind at 1, set_c.
  unfold bind at 1. rewrite (send_ok Enter _ v2) by exact E2.
  unfold bind at 1.
  rewrite E1, E2, E3. unfold login_request in E3 |- *.
  destruct (truthy (api_key s)).
  - rewrite (send_ok _ _ v3) by exact E3. now rewrite T3.
  - rewrite (send_ok _ _ v3) by exact E3. now rewrite T3.
Qed.

(** [close] on an open session: leave the client, forget the handle. *)
Lemma close_exits (w : world) (c : nat) :
  _c (SESSION w) = Some c ->
  accepts tr (clock w) Exit = true ->
  close tr w = (Ret tt, with_c (sent w Exit (tr (clock w) Exit)) None).
Proof.
  intros Hc H. apply accepts_ok in H as [v E].
  unfold close. rewrite Hc. unfold try_finally, bind.
  rewrite (send_ok _ _ _ E), E. reflexivity.
Qed.

(** A call on an open session that the transport answers. *)
Lemma call_ok (method : string) (params : list doc) (r b : Z)
      (w : world) (c : nat) (v : doc) :
  _c (SESSION w) = Some c ->
  0 <= r ->
  tr (clock w) (Rpc method params) = Ok v ->
  call tr method params r b w = (Ret v, sent w (Rpc method params) (Ok v)).
Proof.
  intros Hc Hr E. unfold call, bind. rewrite (open_noop _ _ Hc).
  destruct (Z.to_nat (r + 1)) as [|n] eqn:En; [lia|].
  simpl. unfold try_except. now rewrite (send_ok _ _ _ E).
Qed.

Lemma SESSION_call_ok (method : string) (params : list doc)
      (w : world) (c : nat) (v : doc) :
  _c (SESSION w) = Some c ->
  tr (clock w) (Rpc method params) = Ok v ->
  SESSION_call tr method params w = (Ret v, sent w (Rpc method params) (Ok v)).
Proof. intros Hc E. apply (call_ok _ _ _ _ _ c); [exact Hc | lia | exact E]. Qed.

End SessionFacts.

(** C7. A transient error on the first attempt and an answer on the
    second: on an open session whose call raises an error with a
    transient marker in its message, when the transport lets the session
    close, connect, enter and log in again and then answers the call
    with [v], [call] returns [v]; on the way it slept, left the old
    client and opened a new one. *)
Theorem call_reconnects_and_returns
        (tr : transport) (method : string) (params : list doc)
        (w : world) (c : nat) (text : string) (v : doc) :
  let s := SESSION w in
  let t := clock w in
  _c s = Some c ->
  tr t (Rpc method params) = Fail (Exception text) ->
  transient (lower text) = true ->
  accepts tr (t + 1)%nat Exit = true ->
  accepts tr (t + 2)%nat (Connect (uri s)) = true ->
  accepts tr (t + 3)%nat Enter = true ->
  grants tr (t + 4)%nat (login_request s) = true ->
  tr (t + 5)%nat (Rpc method params) = Ok v ->
  exists w',
    SESSION_call tr method params w = (Ret v, w') /\
    log w' = (log w ++
             [Sent (Rpc method params) (Fail (Exception text));
              Slept 1;
              Sent Exit (tr (t + 1)%nat Exit);
              Sent (Connect (uri s)) (tr (t + 2)%nat (Connect (uri s)));
              Sent Enter (tr (t + 3)%nat Enter);
              Sent (login_request s) (tr (t + 4)%nat (login_request s));
              Sent (Rpc method params) (Ok v)])%list /\
    _c (SESSION w') = Some (t + 2)%nat.
Proof.
  intros s t Hc E1 Htr HX HC HE HL E2.
  replace (t + 1)%nat with (S t) in * by lia.
  replace (t + 2)%nat with (S (S t)) in * by lia.
  replace (t + 3)%nat with (S (S (S t))) in * by lia.
  replace (t + 4)%nat with (S (S (S (S t)))) in * by lia.
  replace (t + 5)%nat with (S (S (S (S (S t))))) in * by lia.
  eexists. split; [|split].
  - unfold SESSION_call, call. unfold bind at 1. rewrite (open_noop _ _ _ Hc).
    change (Z.to_nat (1 + 1)) with 2%nat.
    cbn [call_loop]. unfold try_except at 1.
    rewrite (send_fail _ _ _ _ E1). rewrite Htr.
    unfold bind at 1, sleep.
    unfold bind at 1.
    rewrite (close_exits tr _ c) by (simpl; assumption).
    unfold bind at 1.
    rewrite open_connects by (simpl; first [reflexivity | assumption]).
    unfold try_except. rewrite (send_ok tr _ _ v) by (simpl; assumption).
    reflexivity.
  - simpl. rewrite <- !app_assoc. reflexivity.
  - reflexivity.
Qed.

Lemma call_reconnects_and_returns_witness :
  let w := logged_in flaky_host in
  let running := DDict [("status", DStr "RUNNING")] in
  transient (lower "Connection closed") = true /\
  exists w',
    SESSION_call flaky_host "docker.status" [] w = (Ret running, w') /\
    log w' = log w ++
             [Sent (Rpc "docker.status" []) (Fail (Exception "Connection closed"));
              Slept 1;
              Sent Exit (Ok DNone);
              Sent (Connect "ws://nas/api/current") (Ok DNone);
              Sent Enter (Ok DNone);
              Sent (Rpc "auth.login" [DStr "admin"; DStr "secret"]) (Ok (DBool true));
              Sent (Rpc "docker.status" []) (Ok running)] /\
    _c (SESSION w') = Some 5%nat.
Proof.
  intros w running. split; [reflexivity|].
  apply (call_reconnects_and_returns
           flaky_host "docker.status" [] w 0%nat "Connection closed" running);
    reflexivity.
Defined.

(** An error without a transient marker, and what is no [Exception],
    leave [call] as they came. *)
Lemma call_raises_what_is_not_transient
      (tr : transport) (method : string) (params : list doc) (r b : Z)
      (w : world) (c : nat) (e : exn) :
  _c (SESSION w) = Some c ->
  0 <= r ->
  tr (clock w) (Rpc method params) = Fail e ->
  match e with Exception text => transient (lower text) = false | _ => True end ->
  call tr method params r b w = (Raise e, sent w (Rpc method params) (Fail e)).
Proof.
  intros Hc Hr E He. unfold call, bind. rewrite (open_noop _ _ _ Hc).
  destruct (Z.to_nat (r + 1)) as [|n] eqn:En; [lia|].
  simpl. unfold try_except. rewrite (send_fail _ _ _ _ E).
  destruct e as [text| |]; try reflexivity. now rewrite He.
Qed.

(** ** The job watcher *)

Lemma bind_ret {A B : Type} (m : M A) (k : A -> M B) (w w' : world) (a : A) :
  m w = (Ret a, w') -> bind m k w = k a w'.
Proof. intros H. unfold bind. now rewrite H. Qed.

Lemma bind_raise {A B : Type} (m : M A) (k : A -> M B) (w w' : world) (e : exn) :
  m w = (Raise e, w') -> bind m k w = (Raise e, w').
Proof. intros H. unfold bind. now rewrite H. Qed.

Lemma py_get_field (d : doc) (k : string) (w : world) :
  is_dict d = true -> py_get d k w = (Ret (field k d), w).
Proof. destruct d; try discriminate. reflexivity. Qed.

Lemma concat_str_ok (job : doc) (w : world) :
  job_record job = true ->
  (if truthy (description_of job) then concat_str (description_of job) else ret tt) w
  = (Ret tt, w).
Proof.
  unfold job_record. intros H. apply andb_prop in H as [_ H].
  destruct (description_of job) as [|b|n|s|d|xs|kvs]; simpl in *.
  - reflexivity.
  - destruct b; [discriminate | reflexivity].
  - destruct (n =? 0); [reflexivity | discriminate].
  - destruct (String.eqb s ""); reflexivity.
  - discriminate.
  - destruct xs; [reflexivity | discriminate].
  - destruct kvs; [reflexivity | discriminate].
Qed.

Section WatchFacts.
Variable tr : transport.
Variables (job_id : doc) (poll : Z) (raw_result : doc).

(** One turn of the loop on a job record. *)
Lemma watch_loop_turn (fuel : nat) (lp ld le : doc) (w : world) (c : nat) (job : doc) :
  _c (SESSION w) = Some c ->
  tr (clock w) (get_jobs job_id raw_result) = Ok job ->
  job_record job = true ->
  let changed := py_ne (percent_of job) lp || py_ne (description_of job) ld in
  let fresh := truthy (logs_of job) && py_ne (logs_of job) le in
  let w1 := sent w (get_jobs job_id raw_result) (Ok job) in
  let w2 := if changed
            then printed w1 (JobStatus job_id (state_of job) (percent_of job)
                                       (description_of job))
            else w1 in
  let w3 := if fresh then printed w2 (JobLogs job_id (logs_of job)) else w2 in
  watch_loop tr (S fuel) job_id poll raw_result lp ld le w =
  if terminal (state_of job)
  then (Ret job, printed w3 (summary_line job_id job))
  else watch_loop tr fuel job_id poll raw_result
         (if changed then percent_of job else lp)
         (if changed then description_of job else ld)
         (if fresh then logs_of job else le)
         (slept w3 poll).
Proof.
  intros Hc Htr Hrec changed fresh w1 w2 w3.
  assert (Hd : is_dict job = true).
  { unfold job_record in Hrec. now destruct (is_dict job). }
  assert (Hp : is_dict (progress_of job) = true).
  { unfold job_record in Hrec. rewrite Hd in Hrec.
    now destruct (is_dict (progress_of job)). }
  cbn [watch_loop].
  rewrite (bind_ret _ _ _ _ _ (SESSION_call_ok tr _ _ _ _ _ Hc Htr)).
  fold w1.
  rewrite (bind_ret _ _ _ _ _ (py_get_field job "state" w1 Hd)).
  rewrite (bind_ret _ _ _ _ _ (py_get_field job "progress" w1 Hd)).
  change (if truthy (field "progress" job) then field "progress" job else DDict [])
    with (progress_of job).
  rewrite (bind_ret _ _ _ _ _ (py_get_field (progress_of job) "percent" w1 Hp)).
  rewrite (bind_ret _ _ _ _ _ (py_get_field (progress_of job) "description" w1 Hp)).
  rewrite (bind_ret _ _ _ _ _ (py_get_field job "logs_excerpt" w1 Hd)).
  rewrite (bind_ret _ _ _ _ _ (py_get_field job "error" w1 Hd)).
  change (field "state" job) with (state_of job).
  change (field "percent" (progress_of job)) with (percent_of job).
  change (field "description" (progress_of job)) with (description_of job).
  change (field "logs_excerpt" job) with (logs_of job).
  assert (He : (if truthy (field "error" job) then ret (field "error" job)
                else py_get job "result_encoding_error") w1
               = (Ret (error_of job), w1)).
  { unfold error_of. destruct (truthy (field "error" job)); [reflexivity|].
    now apply py_get_field. }
  rewrite (bind_ret _ _ _ _ _ He).
  fold changed.
  assert (Hl : (if changed
                then (if truthy (description_of job)
                      then concat_str (description_of job) else ret tt) ;;
                     print (JobStatus job_id (state_of job) (percent_of job)
                                      (description_of job)) ;;
                     ret (percent_of job, description_of job)
                else ret (lp, ld)) w1
               = (Ret (if changed then (percent_of job, description_of job)
                       else (lp, ld)), w2)).
  { subst w2. destruct changed; [|reflexivity].
    rewrite (bind_ret _ _ _ _ _ (concat_str_ok job w1 Hrec)). reflexivity. }
  rewrite (bind_ret _ _ _ _ _ Hl).
  fold fresh.
  assert (Hx : (if fresh then print (JobLogs job_id (logs_of job)) ;; ret (logs_of job)
                else ret le) w2
               = (Ret (if fresh then logs_of job else le), w3)).
  { subst w3. destruct fresh; reflexivity. }
  rewrite (bind_ret _ _ _ _ _ Hx).
  destruct (terminal (state_of job)) eqn:Ht.
  - unfold summary_line.
    destruct (py_eq (state_of job) (DStr "SUCCESS")); reflexivity.
  - unfold bind at 1, sleep. destruct changed; reflexivity.
Qed.

(** The watch of a job that the transport reports as [rs], still
    running, and then as [r], ended. *)
Lemma watch_loop_runs (rs : list doc) (r : doc) :
  forall (fuel : nat) (lp ld le : doc) (w : world) (c : nat),
    _c (SESSION w) = Some c ->
    (forall i, (i <= List.length rs)%nat ->
               tr (clock w + i)%nat (get_jobs job_id raw_result)
               = Ok (nth i (rs ++ [r]) DNone)) ->
    forallb running rs = true ->
    ended r = true ->
    (List.length rs < fuel)%nat ->
    watch_loop tr fuel job_id poll raw_result lp ld le w =
    (Ret r,
     mkWorld (SESSION w) (clock w + S (List.length rs))
             (log w ++ watch_log job_id poll raw_result lp ld le (rs ++ [r]))).
Proof.
  induction rs as [|j rs IH]; intros fuel lp ld le w c Hc Htr Hrun Hend Hfuel.
  - destruct fuel as [|fuel]; [simpl in Hfuel; lia|].
    assert (E : tr (clock w) (get_jobs job_id raw_result) = Ok r).
    { specialize (Htr 0%nat (Nat.le_refl _)). now rewrite Nat.add_0_r in Htr. }
    unfold ended in Hend. apply andb_prop in Hend as [Hrec Hterm].
    rewrite (watch_loop_turn fuel lp ld le w c r Hc E Hrec). rewrite Hterm.
    f_equal. simpl. unfold ended. rewrite Hrec, Hterm. simpl.
    unfold printed, sent.
    destruct (py_ne (percent_of r) lp || py_ne (description_of r) ld);
      destruct (truthy (logs_of r) && py_ne (logs_of r) le);
      simpl; rewrite <- ?app_assoc; simpl; f_equal; lia.
  - destruct fuel as [|fuel]; [simpl in Hfuel; lia|].
    assert (E : tr (clock w) (get_jobs job_id raw_result) = Ok j).
    { specialize (Htr 0%nat (Nat.le_0_l _)). now rewrite Nat.add_0_r in Htr. }
    simpl in Hrun. apply andb_prop in Hrun as [Hj Hrun].
    unfold running in Hj. apply andb_prop in Hj as [Hrec Hterm].
    rewrite negb_true_iff in Hterm.
    rewrite (watch_loop_turn fuel lp ld le w c j Hc E Hrec). rewrite Hterm.
    erewrite IH with (c := c); [| | |exact Hrun|exact Hend|simpl in Hfuel; lia].
    + f_equal. simpl app at 3. cbn [watch_log]. unfold ended. rewrite Hrec, Hterm.
      simpl andb.
      destruct (py_ne (percent_of j) lp || py_ne (description_of j) ld);
        destruct (truthy (logs_of j) && py_ne (logs_of j) le);
        simpl; rewrite <- ?app_assoc; simpl; f_equal; lia.
    + destruct (py_ne (percent_of j) lp || py_ne (description_of j) ld);
        destruct (truthy (logs_of j) && py_ne (logs_of j) le); exact Hc.
    + intros i Hi.
      assert (Hclk : forall w0 : world, clock w0 = S (clock w) ->
                 tr (clock w0 + i)%nat (get_jobs job_id raw_result)
                 = Ok (nth i (rs ++ [r]) DNone)).
      { intros w0 ->. specialize (Htr (S i)). simpl in Htr.
        rewrite Nat.add_succ_r in Htr. apply Htr. lia. }
      apply Hclk.
      destruct (py_ne (percent_of j) lp || py_ne (description_of j) ld);
        destruct (truthy (logs_of j) && py_ne (logs_of j) le); reflexivity.
Qed.
End WatchFacts.

(** *** What a watch leaves in the log *)

Lemma status_lines_app (a b : list event) :
  status_lines (a ++ b) = (status_lines a ++ status_lines b)%list.
Proof.
  induction a as [|e a IH]; simpl; [reflexivity|].
  destruct e as [rq rp|secs|l]; try exact IH.
  destruct l; try exact IH. simpl. now rewrite IH.
Qed.

Lemma rpcs_app (m : string) (a b : list event) :
  rpcs m (a ++ b) = (rpcs m a ++ rpcs m b)%list.
Proof.
  induction a as [|e a IH]; simpl; [reflexivity|].
  destruct e as [rq rp|secs|l]; try exact IH.
  destruct rq; try exact IH.
  destruct (String.eqb method m); [simpl; now rewrite IH | exact IH].
Qed.

Lemma last_app_nonempty {A : Type} (a b : list A) (d : A) :
  b <> [] -> last (a ++ b) d = last b d.
Proof.
  intros Hb. induction a as [|x a IH]; [reflexivity|].
  simpl. destruct (a ++ b) eqn:E; [|exact IH].
  apply app_eq_nil in E as [_ E]. contradiction.
Qed.

Lemma summary_is_no_status (job_id r : doc) :
  status_lines [Printed (summary_line job_id r)] = [].
Proof. unfold summary_line. now destruct (py_eq (state_of r) (DStr "SUCCESS")). Qed.

Section WatchLog.
Variables (job_id : doc) (poll : Z) (raw_result : doc).

Lemma running_not_ended (j : doc) : running j = true -> ended j = false.
Proof.
  unfold running, ended. intros H. apply andb_prop in H as [-> H].
  rewrite negb_true_iff in H. now rewrite H.
Qed.

Lemma watch_log_cons (lp ld le job : doc) (rest : list doc) :
  watch_log job_id poll raw_result lp ld le (job :: rest) =
  [Sent (get_jobs job_id raw_result) (Ok job)]
  ++ (if py_ne (percent_of job) lp || py_ne (description_of job) ld
      then [Printed (JobStatus job_id (state_of job) (percent_of job)
                               (description_of job))]
      else [])
  ++ (if truthy (logs_of job) && py_ne (logs_of job) le
      then [Printed (JobLogs job_id (logs_of job))] else [])
  ++ (if ended job
      then [Printed (summary_line job_id job)]
      else [Slept poll] ++
           watch_log job_id poll raw_result
             (if py_ne (percent_of job) lp || py_ne (description_of job) ld
              then percent_of job else lp)
             (if py_ne (percent_of job) lp || py_ne (description_of job) ld
              then description_of job else ld)
             (if truthy (logs_of job) && py_ne (logs_of job) le
              then logs_of job else le)
             rest).
Proof. reflexivity. Qed.

Lemma watch_log_status (rs : list doc) (r : doc) :
  forall lp ld le,
    forallb running rs = true ->
    status_lines (watch_log job_id poll raw_result lp ld le (rs ++ [r]))
    = progress_lines job_id (lp, ld) (rs ++ [r]).
Proof.
  induction rs as [|j rs IH]; intros lp ld le Hrun.
  - change ([] ++ [r]) with [r]. rewrite watch_log_cons.
    rewrite !status_lines_app. cbn [progress_lines fst snd].
    assert (Hend : status_lines
                     (if ended r then [Printed (summary_line job_id r)]
                      else [Slept poll] ++ []) = []).
    { destruct (ended r); [apply summary_is_no_status | reflexivity]. }
    cbn [watch_log]. rewrite Hend.
    destruct (py_ne (percent_of r) lp || py_ne (description_of r) ld);
      destruct (truthy (logs_of r) && py_ne (logs_of r) le); reflexivity.
  - simpl in Hrun. apply andb_prop in Hrun as [Hj Hrun].
    change ((j :: rs) ++ [r]) with (j :: (rs ++ [r])). rewrite watch_log_cons.
    rewrite (running_not_ended _ Hj). rewrite !status_lines_app.
    cbn [progress_lines fst snd]. rewrite IH by exact Hrun.
    destruct (py_ne (percent_of j) lp || py_ne (description_of j) ld);
      destruct (truthy (logs_of j) && py_ne (logs_of j) le); reflexivity.
Qed.

Lemma watch_log_polls (rs : list doc) (r : doc) :
  forall lp ld le,
    forallb running rs = true ->
    rpcs "core.get_jobs" (watch_log job_id poll raw_result lp ld le (rs ++ [r]))
    = repeat (get_jobs_params job_id raw_result) (S (List.length rs)).
Proof.
  induction rs as [|j rs IH]; intros lp ld le Hrun.
  - change ([] ++ [r]) with [r]. rewrite watch_log_cons.
    rewrite !rpcs_app.
    assert (Hend : rpcs "core.get_jobs"
                     (if ended r then [Printed (summary_line job_id r)]
                      else [Slept poll] ++ []) = []).
    { now destruct (ended r). }
    cbn [watch_log]. rewrite Hend.
    destruct (py_ne (percent_of r) lp || py_ne (description_of r) ld);
      destruct (truthy (logs_of r) && py_ne (logs_of r) le); reflexivity.
  - simpl in Hrun. apply andb_prop in Hrun as [Hj Hrun].
    change ((j :: rs) ++ [r]) with (j :: (rs ++ [r])). rewrite watch_log_cons.
    rewrite (running_not_ended _ Hj). rewrite !rpcs_app.
    rewrite IH by exact Hrun.
    destruct (py_ne (percent_of j) lp || py_ne (description_of j) ld);
      destruct (truthy (logs_of j) && py_ne (logs_of j) le); reflexivity.
Qed.

Lemma watch_log_last (rs : list doc) (r : doc) (d : event) :
  forall lp ld le,
    forallb running rs = true ->
    ended r = true ->
    last (watch_log job_id poll raw_result lp ld le (rs ++ [r])) d
    = Printed (summary_line job_id r).
Proof.
  induction rs as [|j rs IH]; intros lp ld le Hrun Hend.
  - change ([] ++ [r]) with [r]. rewrite watch_log_cons. rewrite Hend.
    destruct (py_ne (percent_of r) lp || py_ne (description_of r) ld);
      destruct (truthy (logs_of r) && py_ne (logs_of r) le); reflexivity.
  - simpl in Hrun. apply andb_prop in Hrun as [Hj Hrun].
    change ((j :: rs) ++ [r]) with (j :: (rs ++ [r])). rewrite watch_log_cons.
    rewrite (running_not_ended _ Hj).
    assert (Hne : forall a b c,
               watch_log job_id poll raw_result a b c (rs ++ [r]) <> []).
    { intros a b c. destruct rs; discriminate. }
    rewrite !app_assoc.
    rewrite last_app_nonempty by apply Hne.
    apply IH; assumption.
Qed.
End WatchLog.

(** C4. The watcher, polling a job that the host reports with the job
    records [rs], none in a terminal state, and then with the record
    [r] in a terminal state: it returns [r] after exactly one poll per
    record; the status lines that it prints are those of the records
    whose percent or description differs from the pair printed last;
    and its last line is the summary of [r]. *)
Theorem watch_job_prints_changes_and_returns
        (tr : transport) (job_id : doc) (poll : Z) (raw_result : doc)
        (w : world) (c : nat) (rs : list doc) (r : doc) (fuel : nat) :
  _c (SESSION w) = Some c ->
  (forall i, (i <= List.length rs)%nat ->
             tr (clock w + i)%nat (get_jobs job_id raw_result)
             = Ok (nth i (rs ++ [r]) DNone)) ->
  forallb running rs = true ->
  ended r = true ->
  (List.length rs < fuel)%nat ->
  exists w' evs,
    watch_job tr fuel job_id poll raw_result w = (Ret r, w') /\
    log w' = log w ++ evs /\
    status_lines evs = progress_lines job_id (DNone, DNone) (rs ++ [r]) /\
    last evs (Slept 0) = Printed (summary_line job_id r) /\
    rpcs "core.get_jobs" evs
    = repeat (get_jobs_params job_id raw_result) (S (List.length rs)) /\
    clock w' = (clock w + S (List.length rs))%nat.
Proof.
  intros Hc Htr Hrun Hend Hfuel.
  eexists. exists (watch_log job_id poll raw_result DNone DNone DNone (rs ++ [r])).
  split; [|split; [|split; [|split; [|split]]]].
  - unfold watch_job. eapply watch_loop_runs; eassumption.
  - reflexivity.
  - now apply watch_log_status.
  - now apply watch_log_last.
  - now apply watch_log_polls.
  - reflexivity.
Qed.

(** The example of the specification: percent 0, 50, 50, 100, then
    SUCCESS; three status lines, at 0, at the first 50 and at 100. *)
Example progress_lines_0_50_50_100 :
  progress_lines (DInt 7) (DNone, DNone) (four_polls ++ [fifth_poll]) =
  [JobStatus (DInt 7) (DStr "RUNNING") (DInt 0) DNone;
   JobStatus (DInt 7) (DStr "RUNNING") (DInt 50) DNone;
   JobStatus (DInt 7) (DStr "RUNNING") (DInt 100) DNone].
Proof. reflexivity. Qed.

Lemma watch_job_prints_changes_and_returns_witness :
  forallb running four_polls = true /\
  ended fifth_poll = true /\
  exists w' evs,
    watch_job job_host 5 (DInt 7) 1 (DBool true) (logged_in job_host)
    = (Ret fifth_poll, w') /\
    log w' = log (logged_in job_host) ++ evs /\
    status_lines evs
    = progress_lines (DInt 7) (DNone, DNone) (four_polls ++ [fifth_poll]) /\
    last evs (Slept 0) = Printed (summary_line (DInt 7) fifth_poll) /\
    rpcs "core.get_jobs" evs
    = repeat (get_jobs_params (DInt 7) (DBool true)) (S (List.length four_polls)) /\
    clock w' = (clock (logged_in job_host) + S (List.length four_polls))%nat.
Proof.
  split; [reflexivity|]. split; [reflexivity|].
  apply (watch_job_prints_changes_and_returns
           job_host (DInt 7) 1 (DBool true) (logged_in job_host) 0%nat
           four_polls fifth_poll 5).
  - reflexivity.
  - intros i Hi. do 5 (destruct i as [|i]; [reflexivity|]).
    simpl in Hi. lia.
  - reflexivity.
  - reflexivity.
  - simpl. lia.
Defined.

(** C8. [update_app] on an open session: in compose mode the request is
    ["app.update"] with the name and the desired document under
    [custom_compose_config]; otherwise with the name and
    [{"values": {}}], whatever the desired document; in both modes the
    value returned is the job id that is then watched, poll after poll,
    to the record in a terminal state. *)
Theorem update_app_sends_and_watches
        (tr : transport) (fuel : nat) (app_name : string) (compose : bool)
        (desired_spec : doc) (w : world) (c : nat)
        (job_id : doc) (rs : list doc) (r : doc) :
  let spec := if compose
              then DDict [("custom_compose_config", desired_spec)]
              else DDict [("values", DDict [])] in
  _c (SESSION w) = Some c ->
  tr (clock w) (Rpc "app.update" [DStr app_name; spec]) = Ok job_id ->
  (forall i, (i <= List.length rs)%nat ->
             tr (S (clock w) + i)%nat (get_jobs job_id (DBool true))
             = Ok (nth i (rs ++ [r]) DNone)) ->
  forallb running rs = true ->
  ended r = true ->
  (List.length rs < fuel)%nat ->
  exists w',
    update_app tr fuel app_name compose desired_spec w = (Ret tt, w') /\
    log w' = log w
             ++ [Sent (Rpc "app.update" [DStr app_name; spec]) (Ok job_id)]
             ++ watch_log job_id 1 (DBool true) DNone DNone DNone (rs ++ [r]) /\
    rpcs "core.get_jobs" (watch_log job_id 1 (DBool true) DNone DNone DNone (rs ++ [r]))
    = repeat (get_jobs_params job_id (DBool true)) (S (List.length rs)) /\
    last (log w') (Slept 0) = Printed (summary_line job_id r).
Proof.
  intros spec Hc Hup Htr Hrun Hend Hfuel.
  eexists. split; [|split; [|split]].
  - unfold update_app. fold spec.
    rewrite (bind_ret _ _ _ _ _ (SESSION_call_ok tr _ _ _ _ _ Hc Hup)).
    unfold watch_job.
    erewrite bind_ret;
      [| eapply (watch_loop_runs tr job_id 1 (DBool true) rs r) with (c := c);
         [exact Hc | exact Htr | exact Hrun | exact Hend | exact Hfuel]].
    reflexivity.
  - simpl. now rewrite <- app_assoc.
  - now apply watch_log_polls.
  - simpl. rewrite <- app_assoc, app_assoc.
    rewrite last_app_nonempty.
    + now apply watch_log_last.
    + destruct rs; discriminate.
Qed.

Lemma update_app_sends_and_watches_witness :
  forallb running four_polls = true /\
  ended fifth_poll = true /\
  exists w',
    update_app busy_host 5 "web" false web_nginx (logged_in busy_host) = (Ret tt, w') /\
    log w' = log (logged_in busy_host)
             ++ [Sent (Rpc "app.update" [DStr "web"; DDict [("values", DDict [])]])
                      (Ok (DInt 7))]
             ++ watch_log (DInt 7) 1 (DBool true) DNone DNone DNone
                          (four_polls ++ [fifth_poll]) /\
    rpcs "core.get_jobs" (watch_log (DInt 7) 1 (DBool true) DNone DNone DNone
                                    (four_polls ++ [fifth_poll]))
    = repeat (get_jobs_params (DInt 7) (DBool true)) (S (List.length four_polls)) /\
    last (log w') (Slept 0) = Printed (summary_line (DInt 7) fifth_poll).
Proof.
  split; [reflexivity|]. split; [reflexivity|].
  apply (update_app_sends_and_watches
           busy_host 5 "web" false web_nginx (logged_in busy_host) 0%nat
           (DInt 7) four_polls fifth_poll).
  - reflexivity.
  - reflexivity.
  - intros i Hi. do 5 (destruct i as [|i]; [reflexivity|]).
    simpl in Hi. lia.
  - reflexivity.
  - reflexivity.
  - simpl. lia.
Defined.

(** ** The reconciler *)

Section ReconcilerFacts.
Variable tr : transport.
Variable yaml_safe_load : string -> parsed.
Variable json_loads : string -> parsed.

(** Reading a definition sends nothing and prints nothing. *)
Lemma validate_and_normalize_pure (p : path) (w : world) :
  snd (validate_and_normalize yaml_safe_load json_loads p w) = w.
Proof.
  unfold validate_and_normalize, bind, raise, ret.
  destruct (String.eqb (lower (suffix p)) ".yaml" || String.eqb (lower (suffix p)) ".yml").
  - destruct (yaml_safe_load (read_text p)) as [d|e]; [destruct d|]; reflexivity.
  - destruct (String.eqb (lower (suffix p)) ".json"); [|reflexivity].
    destruct (json_loads (read_text p)) as [d|e]; [destruct d|]; reflexivity.
Qed.

Lemma validate_and_normalize_ret (p : path) (w : world) (d : doc) :
  fst (validate_and_normalize yaml_safe_load json_loads p w) = Ret d ->
  validate_and_normalize yaml_safe_load json_loads p w = (Ret d, w).
Proof.
  intros H. pose proof (validate_and_normalize_pure p w) as Hp.
  destruct (validate_and_normalize yaml_safe_load json_loads p w) as [o w'].
  simpl in *. now subst.
Qed.
End ReconcilerFacts.

Lemma rpcs_one (m m' : string) (ps : list doc) (rp : reply) :
  rpcs m [Sent (Rpc m' ps) rp] = if String.eqb m' m then [ps] else [].
Proof. reflexivity. Qed.

Lemma watch_log_other_rpcs (m : string) (job_id : doc) (poll : Z) (raw_result : doc)
      (jobs : list doc) :
  String.eqb "core.get_jobs" m = false ->
  forall lp ld le, rpcs m (watch_log job_id poll raw_result lp ld le jobs) = [].
Proof.
  intros Hm. induction jobs as [|j jobs IH]; intros lp ld le; [reflexivity|].
  rewrite watch_log_cons, !rpcs_app. unfold get_jobs. rewrite rpcs_one, Hm.
  assert (H1 : forall (b : bool) l, rpcs m (if b then [Printed l] else []) = []).
  { now intros [|] l. }
  rewrite !H1. simpl.
  destruct (ended j); [reflexivity | apply IH].
Qed.

(** C5. [deploy_app] for an application that the host has, with a
    configuration equivalent to the desired document: it queries the
    application and its configuration, prints the SKIP line, and makes
    no creation and no update. *)
Theorem deploy_app_skips_when_equivalent
        (tr : transport) (yaml_safe_load json_loads : string -> parsed)
        (fuel : nat) (file_path : path) (is_compose : bool)
        (w : world) (c : nat) (desired_config found current_config : doc) :
  _c (SESSION w) = Some c ->
  fst (validate_and_normalize yaml_safe_load json_loads file_path w) = Ret desired_config ->
  tr (clock w) (app_query (stem file_path)) = Ok found ->
  truthy found = true ->
  tr (S (clock w)) (Rpc "app.config" [DStr (stem file_path)]) = Ok current_config ->
  json_equivalent desired_config current_config = true ->
  exists w',
    deploy_app tr yaml_safe_load json_loads fuel file_path is_compose w = (Ret tt, w') /\
    log w' = log w ++ [Sent (app_query (stem file_path)) (Ok found);
                       Sent (Rpc "app.config" [DStr (stem file_path)]) (Ok current_config);
                       Printed (Skip (stem file_path))] /\
    rpcs "app.create" (log w') = rpcs "app.create" (log w) /\
    rpcs "app.update" (log w') = rpcs "app.update" (log w).
Proof.
  intros Hc Hval Hq Hfound Hcfg Heq.
  eexists. split; [|split; [|split]].
  - unfold deploy_app.
    rewrite (bind_ret _ _ _ _ _ (validate_and_normalize_ret _ _ _ _ _ Hval)).
    rewrite (bind_ret _ _ _ _ _ (SESSION_call_ok tr _ _ _ _ _ Hc Hq)).
    rewrite Hfound.
    erewrite bind_ret; [| apply (SESSION_call_ok tr _ _ _ c); [exact Hc | exact Hcfg]].
    rewrite Heq. reflexivity.
  - simpl. rewrite <- !app_assoc. reflexivity.
  - simpl. rewrite !rpcs_app. simpl. now rewrite !app_nil_r.
  - simpl. rewrite !rpcs_app. simpl. now rewrite !app_nil_r.
Qed.

Lemma deploy_app_skips_when_equivalent_witness :
  json_equivalent web_two_keys web_two_keys_on_host = true /\
  exists w',
    deploy_app settled_host (reads web_two_keys) (reads web_two_keys) 5
               web_yaml true (logged_in settled_host) = (Ret tt, w') /\
    log w' = log (logged_in settled_host)
             ++ [Sent (app_query "web") (Ok (DList [DDict [("name", DStr "web")]]));
                 Sent (Rpc "app.config" [DStr "web"]) (Ok web_two_keys_on_host);
                 Printed (Skip "web")] /\
    rpcs "app.create" (log w') = rpcs "app.create" (log (logged_in settled_host)) /\
    rpcs "app.update" (log w') = rpcs "app.update" (log (logged_in settled_host)).
Proof.
  split; [reflexivity|].
  apply (deploy_app_skips_when_equivalent
           settled_host (reads web_two_keys) (reads web_two_keys) 5 web_yaml true
           (logged_in settled_host) 0%nat web_two_keys
           (DList [DDict [("name", DStr "web")]]) web_two_keys_on_host);
    reflexivity.
Defined.

(** C6. [deploy_app] in compose mode for an application that the host
    does not have (the query returns an empty result): one creation,
    whose payload holds the name under [app_name], [custom_app] true
    and the parsed document under [custom_compose_config]; no update;
    then the job of the returned id is polled up to the record in a
    terminal state. *)
Theorem deploy_app_creates_and_watches
        (tr : transport) (yaml_safe_load json_loads : string -> parsed)
        (fuel : nat) (file_path : path)
        (w : world) (c : nat) (desired_config found job_id : doc)
        (rs : list doc) (r : doc) :
  let app_name := stem file_path in
  let payload := compose_payload app_name desired_config in
  _c (SESSION w) = Some c ->
  fst (validate_and_normalize yaml_safe_load json_loads file_path w) = Ret desired_config ->
  tr (clock w) (app_query app_name) = Ok found ->
  truthy found = false ->
  tr (S (clock w)) (Rpc "app.create" [payload]) = Ok job_id ->
  (forall i, (i <= List.length rs)%nat ->
             tr (S (S (clock w)) + i)%nat (get_jobs job_id (DBool true))
             = Ok (nth i (rs ++ [r]) DNone)) ->
  forallb running rs = true ->
  ended r = true ->
  (List.length rs < fuel)%nat ->
  exists w' evs,
    deploy_app tr yaml_safe_load json_loads fuel file_path true w = (Ret tt, w') /\
    log w' = log w ++ evs /\
    evs = [Sent (app_query app_name) (Ok found);
           Printed (Create app_name);
           Sent (Rpc "app.create" [payload]) (Ok job_id)]
          ++ watch_log job_id 1 (DBool true) DNone DNone DNone (rs ++ [r]) /\
    rpcs "app.create" evs = [[payload]] /\
    rpcs "app.update" evs = [] /\
    rpcs "core.get_jobs" evs
    = repeat (get_jobs_params job_id (DBool true)) (S (List.length rs)) /\
    last evs (Slept 0) = Printed (summary_line job_id r).
Proof.
  intros app_name payload Hc Hval Hq Hfound Hcr Htr Hrun Hend Hfuel.
  eexists. eexists. split; [|split; [|split; [reflexivity|split; [|split; [|split]]]]].
  - unfold deploy_app. fold app_name.
    rewrite (bind_ret _ _ _ _ _ (validate_and_normalize_ret _ _ _ _ _ Hval)).
    rewrite (bind_ret _ _ _ _ _ (SESSION_call_ok tr _ _ _ _ _ Hc Hq)).
    rewrite Hfound. cbn [negb].
    unfold bind at 1, print.
    erewrite bind_ret; [| apply (SESSION_call_ok tr _ _ _ c); [exact Hc | exact Hcr]].
    unfold watch_job.
    erewrite bind_ret;
      [| eapply (watch_loop_runs tr job_id 1 (DBool true) rs r) with (c := c);
         [exact Hc | exact Htr | exact Hrun | exact Hend | exact Hfuel]].
    reflexivity.
  - simpl. rewrite <- !app_assoc. reflexivity.
  - simpl. rewrite watch_log_other_rpcs by reflexivity. reflexivity.
  - simpl. now rewrite watch_log_other_rpcs by reflexivity.
  - simpl. now apply watch_log_polls.
  - rewrite last_app_nonempty; [now apply watch_log_last | destruct rs; discriminate].
Qed.

Lemma deploy_app_creates_and_watches_witness :
  forallb running four_polls = true /\
  ended fifth_poll = true /\
  exists w' evs,
    deploy_app empty_host (reads web_nginx) (reads web_nginx) 5 web_yaml true
               (logged_in empty_host) = (Ret tt, w') /\
    log w' = log (logged_in empty_host) ++ evs /\
    evs = [Sent (app_query "web") (Ok (DList []));
           Printed (Create "web");
           Sent (Rpc "app.create" [compose_payload "web" web_nginx]) (Ok (DInt 7))]
          ++ watch_log (DInt 7) 1 (DBool true) DNone DNone DNone
                       (four_polls ++ [fifth_poll]) /\
    rpcs "app.create" evs = [[compose_payload "web" web_nginx]] /\
    rpcs "app.update" evs = [] /\
    rpcs "core.get_jobs" evs
    = repeat (get_jobs_params (DInt 7) (DBool true)) (S (List.length four_polls)) /\
    last evs (Slept 0) = Printed (summary_line (DInt 7) fifth_poll).
Proof.
  split; [reflexivity|]. split; [reflexivity|].
  apply (deploy_app_creates_and_watches
           empty_host (reads web_nginx) (reads web_nginx) 5 web_yaml
           (logged_in empty_host) 0%nat web_nginx (DList []) (DInt 7)
           four_polls fifth_poll).
  - reflexivity.
  - reflexivity.
  - reflexivity.
  - reflexivity.
  - reflexivity.
  - intros i Hi. do 5 (destruct i as [|i]; [reflexivity|]).
    simpl in Hi. lia.
  - reflexivity.
  - reflexivity.
  - simpl. lia.
Defined.

(** ** The readiness gate *)

Section GateFacts.
Variable tr : transport.

(** When [open] returns, the session is open, and what [open] sent
    are the connection, the entry and the login. *)
Lemma open_ret (w w1 : world) :
  open tr w = (Ret tt, w1) ->
  (exists c, _c (SESSION w1) = Some c) /\
  forall m, String.eqb "auth.login" m = false ->
            String.eqb "auth.login_with_api_key" m = false ->
            rpcs m (log w1) = rpcs m (log w).
Proof.
  set (P := fun w1 : world =>
              (exists c, _c (SESSION w1) = Some c) /\
              forall m, String.eqb "auth.login" m = false ->
                        String.eqb "auth.login_with_api_key" m = false ->
                        rpcs m (log w1) = rpcs m (log w)).
  change (open tr w = (Ret tt, w1) -> P w1).
  unfold open. destruct (_c (SESSION w)) as [c|] eqn:Hc.
  - intros H. inversion H; subst. split; [eauto | reflexivity].
  - unfold bind, send, set_c, sent, with_c. simpl.
    destruct (tr (clock w) (Connect (uri (SESSION w)))) as [v1|e1]; [|discriminate].
    simpl.
    destruct (tr (S (clock w)) Enter) as [v2|e2]; [|discriminate].
    simpl.
    destruct (truthy (api_key (SESSION w))); simpl.
    + destruct (tr (S (S (clock w))) (Rpc "auth.login_with_api_key" [api_key (SESSION w)]))
        as [v3|e3]; [|discriminate].
      destruct (truthy v3) eqn:T3; cbn [negb].
      * intros H. inversion H; subst. subst P. cbn [SESSION _c log]. split; [eauto|].
        intros m H1 H2. rewrite !rpcs_app, rpcs_one, H2. cbn [rpcs].
        now rewrite !app_nil_r.
      * unfold close, try_finally, bind, send, set_c, raise, sent, with_c.
        simpl.
        destruct (tr (S (S (S (clock w)))) Exit); discriminate.
    + destruct (tr (S (S (clock w))) (Rpc "auth.login" [user (SESSION w); password (SESSION w)]))
        as [v3|e3]; [|discriminate].
      destruct (truthy v3) eqn:T3; cbn [negb].
      * intros H. inversion H; subst. subst P. cbn [SESSION _c log]. split; [eauto|].
        intros m H1 H2. rewrite !rpcs_app, rpcs_one, H1. cbn [rpcs].
        now rewrite !app_nil_r.
      * unfold close, try_finally, bind, send, set_c, raise, sent, with_c.
        simpl.
        destruct (tr (S (S (S (clock w)))) Exit); discriminate.
Qed.
End GateFacts.

(** C9. The readiness gate.  After [SESSION.open()], when the host
    answers ["docker.status"] with a mapping whose status is [st]:
    [validate_truenas] returns when [st] is ["RUNNING"] and otherwise
    stops the program, with one message for ["UNCONFIGURED"] and
    another, showing [st], for the rest; when it stops the program the
    run ends there, without a query, a configuration read, a creation
    or an update for any definition; when it returns the run goes on to
    the definitions, in the order of their names. *)
Theorem docker_gate
        (tr : transport) (yaml_safe_load json_loads : string -> parsed)
        (fuel : nat) (entries : list path) (w w1 : world) (status : doc) :
  let st := field "status" status in
  let after := sent w1 (Rpc "docker.status" []) (Ok status) in
  let verdict :=
    if py_eq st (DStr "UNCONFIGURED") then DockerUnconfigured else DockerUnhealthy st in
  open tr w = (Ret tt, w1) ->
  tr (clock w1) (Rpc "docker.status" []) = Ok status ->
  is_dict status = true ->
  validate_truenas tr w1
  = (if py_eq st (DStr "RUNNING") then Ret tt else Raise (SystemExit verdict), after) /\
  (py_eq st (DStr "RUNNING") = false ->
   main tr yaml_safe_load json_loads fuel entries w = (Raise (SystemExit verdict), after) /\
   rpcs "app.query" (log after) = rpcs "app.query" (log w) /\
   rpcs "app.config" (log after) = rpcs "app.config" (log w) /\
   rpcs "app.create" (log after) = rpcs "app.create" (log w) /\
   rpcs "app.update" (log after) = rpcs "app.update" (log w)) /\
  (py_eq st (DStr "RUNNING") = true ->
   main tr yaml_safe_load json_loads fuel entries w
   = deploy_all tr yaml_safe_load json_loads fuel (sorted_paths entries) after).
Proof.
  intros st after verdict Hopen Hst Hdict.
  destruct (open_ret tr w w1 Hopen) as [[c Hc] Hlog].
  assert (Hval : validate_truenas tr w1
                 = (if py_eq st (DStr "RUNNING") then Ret tt
                    else Raise (SystemExit verdict), after)).
  { unfold validate_truenas.
    rewrite (bind_ret _ _ _ _ _ (SESSION_call_ok tr _ _ _ _ _ Hc Hst)).
    rewrite (bind_ret _ _ _ _ _ (py_get_field status "status" _ Hdict)).
    fold st after. subst verdict.
    destruct (py_eq st (DStr "RUNNING")); [reflexivity|].
    destruct (py_eq st (DStr "UNCONFIGURED")); reflexivity. }
  split; [exact Hval|]. split.
  - intros Hnot. rewrite Hnot in Hval. split.
    + unfold main. rewrite (bind_ret _ _ _ _ _ Hopen).
      now rewrite (bind_raise _ _ _ _ _ Hval).
    + subst after. cbn [sent log]. rewrite !rpcs_app, !rpcs_one. cbn [String.eqb Ascii.eqb Bool.eqb].
      rewrite !app_nil_r. repeat split; apply Hlog; reflexivity.
  - intros Hrun. rewrite Hrun in Hval.
    unfold main. rewrite (bind_ret _ _ _ _ _ Hopen).
    now rewrite (bind_ret _ _ _ _ _ Hval).
Qed.

Lemma docker_gate_witness :
  let tr := docker_host "UNCONFIGURED" in
  let status := DDict [("status", DStr "UNCONFIGURED")] in
  let after := sent (logged_in tr) (Rpc "docker.status" []) (Ok status) in
  validate_truenas tr (logged_in tr)
  = (Raise (SystemExit DockerUnconfigured), after) /\
  main tr (reads web_nginx) (reads web_nginx) 5 [web_yaml] at_startup
  = (Raise (SystemExit DockerUnconfigured), after) /\
  rpcs "app.query" (log after) = [] /\
  rpcs "app.create" (log after) = [].
Proof.
  intros tr status after.
  destruct (docker_gate tr (reads web_nginx) (reads web_nginx) 5 [web_yaml]
                        at_startup (logged_in tr) status)
    as [Hval [Hstop _]]; [reflexivity | reflexivity | reflexivity |].
  destruct (Hstop eq_refl) as [Hmain [Hq [_ [Hc _]]]].
  repeat split; assumption.
Defined.

(** ** More on the session manager *)

(** Opening twice is opening once: the second [open] finds the session
    open and sends nothing. *)
Theorem open_twice (tr : transport) (w : world) :
  (open tr ;; open tr) w = open tr w.
Proof.
  unfold bind. destruct (open tr w) as [[[]|e|] w1] eqn:E; try reflexivity.
  destruct (open_ret tr w w1 E) as [[c Hc] _].
  apply (open_noop tr w1 c Hc).
Qed.

(** However [close] ends, the session has no client after it; closing
    twice is closing once. *)
Theorem close_leaves_closed (tr : transport) (w : world) :
  _c (SESSION (snd (close tr w))) = None /\
  (close tr ;; close tr) w = close tr w.
Proof.
  unfold bind, close. destruct (_c (SESSION w)) as [c|] eqn:Hc.
  - unfold try_finally, bind, send, set_c, ret.
    destruct (tr (clock w) Exit) as [v|e]; simpl; split; reflexivity.
  - rewrite Hc. split; [exact Hc | reflexivity].
Qed.




(** An error of the call whose message has no transient marker, or
    that is no [Exception], leaves [call] as it came, after one
    attempt: no sleep, no reconnection, no retry. *)
Theorem call_raises_at_once
        (tr : transport) (method : string) (params : list doc) (r b : Z)
        (w : world) (c : nat) (e : exn) :
  _c (SESSION w) = Some c ->
  0 <= r ->
  tr (clock w) (Rpc method params) = Fail e ->
  match e with Exception text => transient (lower text) = false | _ => True end ->
  call tr method params r b w = (Raise e, sent w (Rpc method params) (Fail e)).
Proof.
  intros Hc Hr E He. now apply (call_raises_what_is_not_transient tr _ _ _ _ _ c).
Qed.

Lemma call_raises_at_once_witness :
  let w := logged_in denying_host in
  call denying_host "app.query" [] 1 1 w
  = (Raise (Exception "Permission denied"),
     sent w (Rpc "app.query" []) (Fail (Exception "Permission denied"))).
Proof.
  intros w.
  apply (call_raises_at_once denying_host "app.query" [] 1 1 w 0%nat
                             (Exception "Permission denied"));
    [reflexivity | lia | reflexivity | reflexivity].
Defined.

(** With a negative retry budget the range of attempts is empty:
    [call] opens the session, sends no call and returns None. *)
Theorem call_without_attempts
        (tr : transport) (method : string) (params : list doc) (r b : Z) (w : world) :
  r < 0 ->
  call tr method params r b w = (open tr ;; ret DNone) w.
Proof.
  intros Hr. unfold call.
  replace (Z.to_nat (r + 1)) with 0%nat by lia. reflexivity.
Qed.

Lemma call_without_attempts_witness :
  call shut_host "docker.status" [] (-1) 1 (logged_in shut_host)
  = (Ret DNone, logged_in shut_host).
Proof.
  rewrite (call_without_attempts shut_host "docker.status" [] (-1) 1
                                 (logged_in shut_host)); [reflexivity | lia].
Defined.

Lemma sleeps_app (a b : list event) : sleeps (a ++ b) = sleeps a ++ sleeps b.
Proof.
  induction a as [|e a IH]; simpl; [reflexivity|].
  destruct e; simpl; now rewrite IH.
Qed.




(** ** The order of [sorted] *)

(** Python's order on [str] is transitive. *)
Lemma string_leb_trans (s1 s2 s3 : string) :
  String.leb s1 s2 = true -> String.leb s2 s3 = true -> String.leb s1 s3 = true.
Proof.
  unfold String.leb. revert s2 s3.
  induction s1 as [|c1 s1 IH]; intros [|c2 s2] [|c3 s3]; simpl;
    try reflexivity; try discriminate.
  unfold Ascii.compare.
  destruct (N.compare_spec (N_of_ascii c1) (N_of_ascii c2)) as [E12|L12|G12];
    destruct (N.compare_spec (N_of_ascii c2) (N_of_ascii c3)) as [E23|L23|G23];
    destruct (N.compare_spec (N_of_ascii c1) (N_of_ascii c3)) as [E13|L13|G13];
    try reflexivity; try discriminate; try lia.
  apply IH.
Qed.

Section SortedFacts.
Context {A K : Type}.
Variable leb : K -> K -> bool.
Variable key : A -> K.
Hypothesis leb_total : forall a b, leb a b = true \/ leb b a = true.
Hypothesis leb_trans : forall a b c, leb a b = true -> leb b c = true -> leb a c = true.

Lemma insert_by_sorted (x : A) (l : list A) :
  StronglySorted (key_le leb key) l -> StronglySorted (key_le leb key) (insert_by leb key x l).
Proof.
  induction l as [|y r IH]; intros Hs; simpl.
  - repeat constructor.
  - inversion Hs as [|? ? Hr Hy]; subst.
    destruct (leb (key x) (key y)) eqn:E.
    + constructor; [exact Hs|]. constructor; [exact E|].
      rewrite Forall_forall in *. intros z Hz.
      apply (leb_trans _ (key y)); [exact E | now apply Hy].
    + constructor; [now apply IH|].
      assert (Hyx : key_le leb key y x).
      { destruct (leb_total (key x) (key y)) as [H|H]; [congruence | exact H]. }
      rewrite Forall_forall in *. intros z Hz.
      apply (Permutation_in _ (insert_by_perm leb key x r)) in Hz.
      destruct Hz as [<-|Hz]; [exact Hyx | now apply Hy].
Qed.

(** What [sorted] returns is in ascending order of the keys. *)
Lemma sorted_by_sorted (l : list A) : StronglySorted (key_le leb key) (sorted_by leb key l).
Proof.
  induction l as [|x r IH]; simpl; [constructor | now apply insert_by_sorted].
Qed.

(** [sorted] leaves a list in ascending order as it is. *)
Lemma sorted_by_id (l : list A) : StronglySorted (key_le leb key) l -> sorted_by leb key l = l.
Proof.
  induction l as [|x r IH]; intros Hs; [reflexivity|].
  inversion Hs as [|? ? Hr Hx]; subst. simpl. rewrite (IH Hr).
  destruct r as [|y r]; [reflexivity|]. simpl.
  inversion Hx as [|? ? Hxy _]; subst. unfold key_le in Hxy. now rewrite Hxy.
Qed.

Lemma sorted_by_idem (l : list A) :
  sorted_by leb key (sorted_by leb key l) = sorted_by leb key l.
Proof. apply sorted_by_id, sorted_by_sorted. Qed.

Hypothesis leb_antisym : forall a b, leb a b = true -> leb b a = true -> a = b.

(** Two ascending lists with the same elements, of different keys, are
    the same list. *)
Lemma sorted_unique (l : list A) :
  forall l', StronglySorted (key_le leb key) l -> StronglySorted (key_le leb key) l' ->
             Permutation l l' -> NoDup (map key l) -> l = l'.
Proof.
  induction l as [|x r IH]; intros l' Hs Hs' Hp Hnd.
  - now apply Permutation_nil in Hp.
  - destruct l' as [|y r']; [now apply Permutation_sym, Permutation_nil in Hp|].
    inversion Hs as [|? ? Hr Hx]; subst. inversion Hs' as [|? ? Hr' Hy]; subst.
    inversion Hnd as [|? ? Hnotin Hnd']; subst.
    rewrite Forall_forall in Hx, Hy.
    assert (Hxy : x = y).
    { assert (Hy_in : In y (x :: r)).
      { apply (Permutation_in _ (Permutation_sym Hp)). now left. }
      destruct Hy_in as [E|Hy_in]; [exact E|].
      assert (Hx_in : In x (y :: r')).
      { apply (Permutation_in _ Hp). now left. }
      destruct Hx_in as [E|Hx_in]; [now symmetry|].
      exfalso. apply Hnotin.
      rewrite (leb_antisym (key x) (key y) (Hx y Hy_in) (Hy x Hx_in)).
      now apply in_map. }
    subst y. f_equal. apply IH; try assumption.
    now apply Permutation_cons_inv in Hp.
Qed.

(** [sorted] does not depend on the order of its input, when the keys
    differ from one another. *)
Lemma sorted_by_perm_eq (l l' : list A) :
  Permutation l l' -> NoDup (map key l) ->
  sorted_by leb key l = sorted_by leb key l'.
Proof.
  intros Hp Hnd. apply sorted_unique.
  - apply sorted_by_sorted.
  - apply sorted_by_sorted.
  - eapply perm_trans; [apply sorted_by_perm|].
    eapply perm_trans; [exact Hp | apply Permutation_sym, sorted_by_perm].
  - eapply Permutation_NoDup; [|exact Hnd].
    apply Permutation_map, Permutation_sym, sorted_by_perm.
Qed.
End SortedFacts.

(** ** More on the canonicalizer *)

(** The canonical form of a document without repeated keys has no
    repeated keys. *)
Theorem canonicalize_keeps_well_formed (d : doc) :
  wf_doc d -> wf_doc (canonicalize d).
Proof. apply canonicalize_wf. Qed.

Lemma canonicalize_keeps_well_formed_witness :
  wf_doc web_two_keys /\ wf_doc (canonicalize web_two_keys).
Proof.
  assert (H : wf_doc web_two_keys).
  { simpl. repeat split; repeat constructor; simpl; intuition discriminate. }
  split; [exact H | apply (canonicalize_keeps_well_formed web_two_keys H)].
Defined.

(** Every document without repeated keys is equivalent to itself. *)
Theorem json_equivalent_reflexive (a : doc) :
  wf_doc a -> json_equivalent a a = true.
Proof. apply json_equivalent_refl. Qed.

Lemma json_equivalent_reflexive_witness :
  json_equivalent web_two_keys web_two_keys = true.
Proof.
  apply (json_equivalent_reflexive web_two_keys).
  simpl. repeat split; repeat constructor; simpl; intuition discriminate.
Defined.

(** The equivalence of two documents without repeated keys does not
    depend on which is given first. *)
Theorem json_equivalent_symmetric (a b : doc) :
  wf_doc a -> wf_doc b -> json_equivalent a b = json_equivalent b a.
Proof. apply json_equivalent_sym. Qed.

Lemma json_equivalent_symmetric_witness :
  json_equivalent web_two_keys web_nginx = json_equivalent web_nginx web_two_keys.
Proof.
  apply (json_equivalent_symmetric web_two_keys web_nginx);
    simpl; repeat split; repeat constructor; simpl; intuition discriminate.
Defined.

(** The keys of a canonical mapping are the keys of the mapping in
    ascending order. *)
Theorem canonical_keys_ascending (kvs : list (string * doc)) :
  exists out,
    canonicalize (DDict kvs) = DDict out /\
    map fst out = sorted_str (map fst kvs) /\
    StronglySorted (fun a b => String.leb a b = true) (map fst out).
Proof.
  eexists. split; [apply canonicalize_dict|].
  assert (Hk : map fst (flat_map (fun k => match dict_get k kvs with
                                            | Some v => [(k, canonicalize v)]
                                            | None => []
                                            end) (sorted_str (map fst kvs)))
               = sorted_str (map fst kvs)).
  { apply comprehension_keys. intros k Hk.
    eapply Permutation_in; [apply sorted_str_perm | exact Hk]. }
  split; [exact Hk|]. rewrite Hk.
  apply (sorted_by_sorted String.leb (fun k : string => k)).
  - apply String.leb_total.
  - apply string_leb_trans.
Qed.

Lemma all_keys_None {K A : Type} (l : list (option K * A)) (x : A) :
  In (None, x) l -> all_keys l = None.
Proof.
  induction l as [|[[k|] y] r IH]; simpl; intros Hin.
  - contradiction.
  - destruct Hin as [E|Hin]; [discriminate|]. now rewrite IH.
  - reflexivity.
Qed.

(** A list with an element that cannot be serialised keeps the order of
    its elements. *)
Theorem canonicalize_keeps_order_without_keys (xs : list doc) :
  (exists x, In x xs /\ Json.dumps x = None) ->
  canonicalize (DList xs) = DList (map canonicalize xs).
Proof.
  intros [x [Hin Hx]]. rewrite canonicalize_list. unfold py_sorted.
  rewrite (all_keys_None _ x); [reflexivity|].
  apply in_map_iff. exists x. split; [now rewrite Hx | exact Hin].
Qed.

Lemma canonicalize_keeps_order_without_keys_witness :
  canonicalize (DList with_a_date) = DList (map canonicalize with_a_date).
Proof.
  apply (canonicalize_keeps_order_without_keys with_a_date).
  exists (DDate 737425). split; [right; left; reflexivity | reflexivity].
Defined.

(** The decorated list of [sorted]: every element next to its key. *)
Lemma all_keys_keys {A : Type} (f : A -> option string) (l : list A)
      (dec : list (string * A)) :
  all_keys (map (fun x => (f x, x)) l) = Some dec ->
  map snd dec = l /\ Forall (fun p => f (snd p) = Some (fst p)) dec.
Proof.
  revert dec. induction l as [|x r IH]; simpl; intros dec E.
  - inversion E. split; constructor.
  - destruct (f x) as [k|] eqn:Fx; [|discriminate].
    destruct (all_keys (map (fun x0 => (f x0, x0)) r)) as [d'|]; [|discriminate].
    inversion E; subst. destruct (IH d' eq_refl) as [Hm Hf].
    split; [simpl; now rewrite Hm | constructor; [exact Fx | exact Hf]].
Qed.

(** When every element of a list can be serialised, the canonical list
    holds the canonical forms of the elements in ascending order of the
    JSON text that the elements had as they came in. *)
Theorem canonical_list_ascending (xs : list doc) :
  (forall x, In x xs -> Json.dumps x <> None) ->
  exists ys,
    canonicalize (DList xs) = DList (map canonicalize ys) /\
    Permutation ys xs /\
    StronglySorted dumps_le ys.
Proof.
  intros Hser. rewrite canonicalize_list.
  destruct (py_sorted Json.dumps xs) as [ys|] eqn:E.
  - exists ys. split; [reflexivity|]. split; [apply (py_sorted_perm _ _ _ E)|].
    unfold py_sorted in E.
    destruct (all_keys (map (fun x => (Json.dumps x, x)) xs)) as [dec|] eqn:D;
      [|discriminate].
    simpl in E. inversion E; subst ys. clear E.
    destruct (all_keys_keys _ _ _ D) as [_ Hkeys].
    assert (Hs : StronglySorted (key_le String.leb fst) (sorted_by String.leb fst dec)).
    { apply sorted_by_sorted; [apply String.leb_total | apply string_leb_trans]. }
    assert (Hk : Forall (fun p => Json.dumps (snd p) = Some (fst p))
                        (sorted_by String.leb fst dec)).
    { rewrite Forall_forall in *. intros p Hp. apply Hkeys.
      eapply Permutation_in; [apply (sorted_by_perm String.leb fst) | exact Hp]. }
    induction Hs as [|p l Hl IH Hp]; [constructor|].
    inversion Hk as [|? ? Hkp Hkl]; subst. simpl. constructor; [now apply IH|].
    rewrite Forall_forall in *. intros y Hy.
    apply in_map_iff in Hy as [q [<- Hq]].
    unfold dumps_le. rewrite Hkp, (Hkl q Hq). now apply Hp.
  - exfalso. unfold py_sorted in E.
    destruct (all_keys (map (fun x => (Json.dumps x, x)) xs)) eqn:D; [discriminate|].
    clear E. induction xs as [|x r IH]; simpl in D; [discriminate|].
    destruct (Json.dumps x) eqn:Fx.
    + destruct (all_keys (map (fun x0 => (Json.dumps x0, x0)) r)) eqn:D'; [discriminate|].
      apply IH; [|reflexivity]. intros y Hy. apply Hser. now right.
    + apply (Hser x); [now left | exact Fx].
Qed.

Lemma canonical_list_ascending_witness :
  exists ys,
    canonicalize (DList [DInt 3; DStr "a"; DInt 1]) = DList (map canonicalize ys) /\
    Permutation ys [DInt 3; DStr "a"; DInt 1] /\
    StronglySorted dumps_le ys.
Proof.
  apply (canonical_list_ascending [DInt 3; DStr "a"; DInt 1]).
  intros x [<-|[<-|[<-|[]]]]; discriminate.
Defined.

(** *** The order of the input *)

Lemma dict_get_perm (kvs kvs' : list (string * doc)) (k : string) :
  NoDup (map fst kvs) -> Permutation kvs kvs' -> dict_get k kvs = dict_get k kvs'.
Proof.
  intros Hnd Hp.
  assert (Hnd' : NoDup (map fst kvs')).
  { eapply Permutation_NoDup; [apply Permutation_map, Hp | exact Hnd]. }
  destruct (dict_get k kvs) as [v|] eqn:G.
  - symmetry. apply dict_get_NoDup; [exact Hnd'|].
    eapply Permutation_in; [exact Hp | now apply dict_get_Some_In].
  - destruct (dict_get k kvs') as [v'|] eqn:G'; [|reflexivity].
    exfalso. apply dict_get_Some_In in G'.
    apply (Permutation_in _ (Permutation_sym Hp)) in G'.
    rewrite (dict_get_NoDup kvs k v' Hnd G') in G. discriminate.
Qed.

Lemma string_leb_antisym (a b : string) :
  String.leb a b = true -> String.leb b a = true -> a = b.
Proof. apply String.leb_antisym. Qed.

(** The canonical form of a mapping does not depend on the order in
    which its keys were inserted; a mapping and the same entries in
    another order are equivalent. *)
Theorem canonicalize_ignores_key_order (kvs kvs' : list (string * doc)) :
  wf_doc (DDict kvs) ->
  Permutation kvs kvs' ->
  canonicalize (DDict kvs) = canonicalize (DDict kvs') /\
  json_equivalent (DDict kvs) (DDict kvs') = true.
Proof.
  intros Hwf Hp.
  assert (Hnd : NoDup (map fst kvs)) by (apply wf_dict in Hwf; tauto).
  assert (Heq : canonicalize (DDict kvs) = canonicalize (DDict kvs')).
  { rewrite !canonicalize_dict. f_equal.
    replace (sorted_str (map fst kvs')) with (sorted_str (map fst kvs)).
    - apply flat_map_ext. intros k. now rewrite (dict_get_perm kvs kvs' k Hnd Hp).
    - unfold sorted_str.
      apply (sorted_by_perm_eq String.leb (fun k : string => k)).
      + apply String.leb_total.
      + apply string_leb_trans.
      + apply string_leb_antisym.
      + now apply Permutation_map.
      + now rewrite map_id. }
  split; [exact Heq|].
  unfold json_equivalent. rewrite <- Heq. apply py_eq_refl, canonicalize_wf, Hwf.
Qed.

Lemma canonicalize_ignores_key_order_witness :
  canonicalize (DDict [("b", DInt 2); ("a", DList [DInt 1])])
  = canonicalize (DDict [("a", DList [DInt 1]); ("b", DInt 2)]) /\
  json_equivalent (DDict [("b", DInt 2); ("a", DList [DInt 1])])
                  (DDict [("a", DList [DInt 1]); ("b", DInt 2)]) = true.
Proof.
  apply (canonicalize_ignores_key_order
           [("b", DInt 2); ("a", DList [DInt 1])]
           [("a", DList [DInt 1]); ("b", DInt 2)]).
  - simpl. repeat split; repeat constructor; simpl; intuition discriminate.
  - apply perm_swap.
Defined.

Lemma all_keys_perm {K A : Type} (l l' : list (option K * A)) :
  Permutation l l' ->
  forall d, all_keys l = Some d ->
            exists d', all_keys l' = Some d' /\ Permutation d d'.
Proof.
  induction 1 as [|[[k|] a] l l' Hp IH|[[k1|] a1] [[k2|] a2] l|l l' l'' Hp1 IH1 Hp2 IH2];
    intros d Hd; simpl in *; try discriminate.
  - inversion Hd. exists []. split; [reflexivity | constructor].
  - destruct (all_keys l) as [d0|]; [|discriminate]. inversion Hd; subst.
    destruct (IH d0 eq_refl) as [d' [-> Hp']].
    exists ((k, a) :: d'). split; [reflexivity | now constructor].
  - destruct (all_keys l) as [d0|]; [|discriminate]. simpl in *.
    inversion Hd; subst. eexists. split; [reflexivity | apply perm_swap].
  - destruct (IH1 d Hd) as [d1 [H1 P1]]. destruct (IH2 d1 H1) as [d2 [H2 P2]].
    exists d2. split; [exact H2 | eapply perm_trans; eassumption].
Qed.

Lemma all_keys_defined {A : Type} (f : A -> option string) (l : list A) :
  (forall x, In x l -> f x <> None) ->
  all_keys (map (fun x => (f x, x)) l) <> None.
Proof.
  induction l as [|x r IH]; simpl; intros Hser; [discriminate|].
  destruct (f x) eqn:Fx.
  - destruct (all_keys (map (fun x0 => (f x0, x0)) r)) eqn:D; [discriminate|].
    exfalso. apply IH; [|reflexivity]. intros y Hy. apply Hser. now right.
  - exfalso. apply (Hser x); [now left | exact Fx].
Qed.

(** The canonical form of a list does not depend on the order of its
    elements, when they can be serialised and no two of them have the
    same JSON text. *)
Theorem canonicalize_ignores_list_order (xs xs' : list doc) :
  (forall x, In x xs -> Json.dumps x <> None) ->
  NoDup (map Json.dumps xs) ->
  Permutation xs xs' ->
  canonicalize (DList xs) = canonicalize (DList xs').
Proof.
  intros Hser Hnd Hp. rewrite !canonicalize_list. unfold py_sorted.
  pose proof (Permutation_map (fun x => (Json.dumps x, x)) Hp) as Hp'.
  destruct (all_keys (map (fun x => (Json.dumps x, x)) xs)) as [dec|] eqn:D.
  - destruct (all_keys_perm _ _ Hp' dec D) as [dec' [-> Hpd]]. simpl.
    destruct (all_keys_keys _ _ _ D) as [Hsnd Hkeys].
    replace (sorted_by String.leb fst dec') with (sorted_by String.leb fst dec);
      [reflexivity|].
    apply sorted_by_perm_eq; try assumption.
    + apply String.leb_total.
    + apply string_leb_trans.
    + apply string_leb_antisym.
    + apply (NoDup_map_inv (@Some string)).
      replace (map Some (map fst dec)) with (map Json.dumps xs); [exact Hnd|].
      rewrite <- Hsnd, !map_map. apply map_ext_in. intros p Hin.
      rewrite Forall_forall in Hkeys. now apply Hkeys.
  - exfalso. now apply (all_keys_defined Json.dumps xs).
Qed.

Lemma canonicalize_ignores_list_order_witness :
  canonicalize (DList [DInt 3; DStr "a"; DList [DInt 2; DInt 1]])
  = canonicalize (DList [DList [DInt 2; DInt 1]; DInt 3; DStr "a"]).
Proof.
  apply (canonicalize_ignores_list_order
           [DInt 3; DStr "a"; DList [DInt 2; DInt 1]]
           [DList [DInt 2; DInt 1]; DInt 3; DStr "a"]).
  - intros x [<-|[<-|[<-|[]]]]; discriminate.
  - repeat constructor; simpl; intuition discriminate.
  - apply Permutation_sym. apply (Permutation_cons_append [DInt 3; DStr "a"]).
Defined.

(** ** Where the canonical form is canonical *)

Lemma listfree_dict (kvs : list (string * doc)) :
  listfree (DDict kvs) = forallb (fun kv => listfree (snd kv)) kvs.
Proof.
  simpl. induction kvs as [|[k v] r IH]; [reflexivity|]. simpl. now rewrite IH.
Qed.

Lemma flat_lists_dict (kvs : list (string * doc)) :
  flat_lists (DDict kvs) = forallb (fun kv => flat_lists (snd kv)) kvs.
Proof.
  simpl. induction kvs as [|[k v] r IH]; [reflexivity|]. simpl. now rewrite IH.
Qed.

Lemma listfree_flat (d : doc) : listfree d = true -> flat_lists d = true.
Proof.
  induction d as [| b | n | s | o | xs IH | kvs IH] using doc_rect';
    try reflexivity; try discriminate.
  rewrite listfree_dict, flat_lists_dict, !forallb_forall.
  rewrite Forall_forall in IH. intros H kv Hin. apply IH; auto.
Qed.

(** The serialisation of a mapping: the items in the order of the keys. *)
Lemma dumps_dict (kvs : list (string * doc)) :
  Json.dumps (DDict kvs) =
  option_map
    (fun ps => ("{" ++ Json.join (map Json.item
                                      (sorted_by String.leb fst
                                                 (map (fun p => (snd p, fst p)) ps)))
                    ++ "}")%string)
    (all_keys (map (fun kv => (Json.dumps (snd kv), fst kv)) kvs)).
Proof.
  assert (Hgo : forall l,
             (fix go (l : list (string * doc)) : list (option string * string) :=
                match l with
                | [] => []
                | (k, x) :: r => (Json.dumps x, k) :: go r
                end) l = map (fun kv => (Json.dumps (snd kv), fst kv)) l).
  { induction l as [|[k v] r IH]; [reflexivity|]. now rewrite IH. }
  simpl. now rewrite Hgo.
Qed.

(** The canonical form of a mapping without repeated keys: its entries
    in the order of the keys, each value canonical. *)
Lemma canonicalize_dict_sorted (kvs : list (string * doc)) :
  NoDup (map fst kvs) ->
  canonicalize (DDict kvs) =
  DDict (map canonical_entry (sorted_by String.leb fst kvs)).
Proof.
  intros Hnd. rewrite canonicalize_dict. f_equal. unfold sorted_str.
  rewrite (sorted_by_map String.leb fst (fun k : string => k) fst kvs) by reflexivity.
  assert (Hin : Forall (fun kv => dict_get (fst kv) kvs = Some (snd kv))
                       (sorted_by String.leb fst kvs)).
  { apply Forall_forall. intros [k v] Hkv. simpl.
    apply dict_get_NoDup; [exact Hnd|].
    eapply Permutation_in; [apply (sorted_by_perm String.leb fst) | exact Hkv]. }
  induction Hin as [|kv S Hkv HS IH]; [reflexivity|].
  simpl. rewrite Hkv, IH. reflexivity.
Qed.

Lemma all_keys_snd {K A : Type} (l : list (option K * A)) (d : list (K * A)) :
  all_keys l = Some d -> map snd d = map snd l.
Proof.
  revert d. induction l as [|[[k|] a] r IH]; simpl; intros d E; try discriminate.
  - now inversion E.
  - destruct (all_keys r) as [d'|]; [|discriminate]. inversion E; subst.
    simpl. now rewrite (IH d' eq_refl).
Qed.

(** The keys of a mapping decide the order of its items, not the order
    of its entries. *)
Lemma dumps_dict_perm (kvs kvs' : list (string * doc)) :
  NoDup (map fst kvs) -> Permutation kvs kvs' ->
  Json.dumps (DDict kvs) = Json.dumps (DDict kvs').
Proof.
  intros Hnd Hp. rewrite !dumps_dict.
  pose proof (Permutation_map (fun kv : string * doc => (Json.dumps (snd kv), fst kv)) Hp)
    as Hp'.
  destruct (all_keys (map (fun kv => (Json.dumps (snd kv), fst kv)) kvs)) as [d|] eqn:D.
  - destruct (all_keys_perm _ _ Hp' d D) as [d' [-> Hpd]]. simpl. do 5 f_equal.
    apply sorted_by_perm_eq.
    + apply String.leb_total.
    + apply string_leb_trans.
    + apply string_leb_antisym.
    + now apply Permutation_map.
    + rewrite map_map. simpl.
      replace (map (fun x : string * string => snd x) d) with (map fst kvs); [exact Hnd|].
      change (map (fun x : string * string => snd x) d) with (map snd d).
      rewrite (all_keys_snd _ _ D), map_map. reflexivity.
  - destruct (all_keys (map (fun kv => (Json.dumps (snd kv), fst kv)) kvs')) as [d'|] eqn:D';
      [|reflexivity].
    destruct (all_keys_perm _ _ (Permutation_sym Hp') d' D') as [d [E _]]. congruence.
Qed.

(** Making a document without a list canonical does not change its
    JSON text. *)
Lemma dumps_canonicalize (v : doc) :
  wf_doc v -> listfree v = true -> Json.dumps (canonicalize v) = Json.dumps v.
Proof.
  induction v as [| b | n | s | o | xs IH | kvs IH] using doc_rect';
    intros Hwf Hlf; try reflexivity; try discriminate.
  apply wf_dict in Hwf as [Hnd Hvals].
  rewrite listfree_dict, forallb_forall in Hlf.
  rewrite Forall_forall in IH, Hvals.
  rewrite (canonicalize_dict_sorted kvs Hnd).
  rewrite (dumps_dict_perm kvs (sorted_by String.leb fst kvs) Hnd)
    by apply Permutation_sym, sorted_by_perm.
  rewrite !dumps_dict. f_equal. f_equal.
  rewrite map_map. apply map_ext_in. intros kv Hin. simpl.
  assert (Hkv : In kv kvs).
  { eapply Permutation_in; [apply (sorted_by_perm String.leb fst) | exact Hin]. }
  now rewrite (IH kv Hkv (Hvals kv Hkv) (Hlf kv Hkv)).
Qed.

Lemma all_keys_of_dec {A : Type} (f : A -> option string) (S : list (string * A)) :
  Forall (fun p => f (snd p) = Some (fst p)) S ->
  all_keys (map (fun y => (f y, y)) (map snd S)) = Some S.
Proof.
  induction 1 as [|[k a] S Hp HS IH]; [reflexivity|].
  simpl in *. now rewrite Hp, IH.
Qed.

(** [sorted] leaves what it returned as it is. *)
Lemma py_sorted_again {A : Type} (f : A -> option string) (l ys : list A) :
  py_sorted f l = Some ys -> py_sorted f ys = Some ys.
Proof.
  unfold py_sorted.
  destruct (all_keys (map (fun x => (f x, x)) l)) as [dec|] eqn:D; [|discriminate].
  simpl. intros E. inversion E; subst ys. clear E.
  destruct (all_keys_keys _ _ _ D) as [_ Hkeys].
  rewrite all_keys_of_dec.
  - simpl. f_equal. f_equal. apply sorted_by_idem.
    + apply String.leb_total.
    + apply string_leb_trans.
  - rewrite Forall_forall in *. intros p Hp. apply Hkeys.
    eapply Permutation_in; [apply (sorted_by_perm String.leb fst) | exact Hp].
Qed.

(** [sorted] on elements changed without a change of their keys. *)
Lemma py_sorted_map {A : Type} (f : A -> option string) (g : A -> A) (l : list A) :
  (forall x, In x l -> f (g x) = f x) ->
  py_sorted f (map g l) = option_map (map g) (py_sorted f l).
Proof.
  intros Hk. unfold py_sorted. rewrite map_map.
  replace (map (fun x => (f (g x), g x)) l) with (map (fun x => (f x, g x)) l)
    by (apply map_ext_in; intros x Hx; now rewrite Hk).
  rewrite (all_keys_map f g).
  destruct (all_keys (map (fun x => (f x, x)) l)) as [dec|]; [|reflexivity].
  simpl. f_equal.
  rewrite (sorted_by_map String.leb fst fst (fun p : string * A => (fst p, g (snd p))))
    by reflexivity.
  rewrite !map_map. reflexivity.
Qed.

(** The canonical form of a document without repeated keys, whose lists
    hold no document with a list, is its own canonical form. *)
Theorem canonicalize_idempotent_on_flat_lists (d : doc) :
  wf_doc d -> flat_lists d = true ->
  canonicalize (canonicalize d) = canonicalize d.
Proof.
  induction d as [| b | n | s | o | xs IH | kvs IH] using doc_rect';
    intros Hwf Hfl; try reflexivity.
  - apply wf_list in Hwf. simpl in Hfl.
    rewrite Forall_forall in IH, Hwf. rewrite forallb_forall in Hfl.
    assert (Hkey : forall x, In x xs -> Json.dumps (canonicalize x) = Json.dumps x).
    { intros x Hx. apply dumps_canonicalize; auto. }
    assert (Hidem : forall x, In x xs -> canonicalize (canonicalize x) = canonicalize x).
    { intros x Hx. apply IH; auto. apply listfree_flat; auto. }
    rewrite canonicalize_list.
    destruct (py_sorted Json.dumps xs) as [ys|] eqn:E.
    + assert (Hys : forall y, In y ys -> In y xs).
      { intros y Hy. eapply Permutation_in; [apply (py_sorted_perm _ _ _ E) | exact Hy]. }
      rewrite canonicalize_list.
      rewrite (py_sorted_map Json.dumps canonicalize ys) by auto.
      rewrite (py_sorted_again _ _ _ E). simpl. f_equal.
      rewrite map_map. apply map_ext_in. auto.
    + rewrite canonicalize_list.
      rewrite (py_sorted_map Json.dumps canonicalize xs) by auto.
      rewrite E. simpl. f_equal. rewrite map_map. apply map_ext_in. auto.
  - apply wf_dict in Hwf as [Hnd Hvals]. rewrite flat_lists_dict, forallb_forall in Hfl.
    rewrite Forall_forall in IH, Hvals.
    rewrite (canonicalize_dict_sorted kvs Hnd).
    assert (Hperm : Permutation (sorted_by String.leb fst kvs) kvs)
      by apply sorted_by_perm.
    assert (Hnd' : NoDup (map fst (map canonical_entry (sorted_by String.leb fst kvs)))).
    { rewrite map_map. simpl.
      eapply Permutation_NoDup; [|exact Hnd].
      apply Permutation_sym. apply (Permutation_map fst Hperm). }
    rewrite (canonicalize_dict_sorted _ Hnd'). f_equal.
    rewrite (sorted_by_map String.leb fst fst canonical_entry) by reflexivity.
    rewrite sorted_by_idem by (apply String.leb_total || apply string_leb_trans).
    rewrite map_map. apply map_ext_in. intros kv Hin.
    assert (Hkv : In kv kvs) by (eapply Permutation_in; eassumption).
    unfold canonical_entry. simpl. f_equal. apply IH; auto.
Qed.

Lemma canonicalize_idempotent_on_flat_lists_witness :
  flat_lists web_ports = true /\
  canonicalize (canonicalize web_ports) = canonicalize web_ports.
Proof.
  split; [reflexivity|].
  apply (canonicalize_idempotent_on_flat_lists web_ports); [|reflexivity].
  simpl. repeat split; repeat constructor; simpl; intuition discriminate.
Defined.

(** ** More on the reconciler *)

Section ValidateFacts.
Variable yaml_safe_load : string -> parsed.
Variable json_loads : string -> parsed.

(** What [validate_and_normalize] does for a supported extension, in
    terms of the parser of the extension. *)
Lemma validate_and_normalize_supported (p : path) (w : world) :
  supported (lower (suffix p)) = true ->
  validate_and_normalize yaml_safe_load json_loads p w =
  (match parser_of yaml_safe_load json_loads (lower (suffix p)) (read_text p) with
   | Data (DDict kvs) => Ret (DDict kvs)
   | Data _ => Raise (Exception (name p ++ " must contain a top-level object/dict")%string)
   | ParseError e =>
       Raise (Exception (name p ++ " is not valid " ++ lstrip_dot (lower (suffix p))
                                ++ ": " ++ e)%string)
   end, w).
Proof.
  unfold supported, parser_of, validate_and_normalize, bind, raise, ret.
  destruct (String.eqb (lower (suffix p)) ".yaml" || String.eqb (lower (suffix p)) ".yml").
  - intros _. destruct (yaml_safe_load (read_text p)) as [d|e]; [destruct d|]; reflexivity.
  - simpl. intros ->.
    destruct (json_loads (read_text p)) as [d|e]; [destruct d|]; reflexivity.
Qed.

Lemma validate_and_normalize_unsupported (p : path) (w : world) :
  supported (lower (suffix p)) = false ->
  validate_and_normalize yaml_safe_load json_loads p w =
  (Raise (Exception (full p ++ " must be .yaml, .yml, or .json")%string), w).
Proof.
  unfold supported, validate_and_normalize, bind, raise.
  destruct (String.eqb (lower (suffix p)) ".yaml" || String.eqb (lower (suffix p)) ".yml");
    [discriminate|].
  simpl. now intros ->.
Qed.

Lemma validate_and_normalize_raise (p : path) (w : world) (e : exn) :
  fst (validate_and_normalize yaml_safe_load json_loads p w) = Raise e ->
  validate_and_normalize yaml_safe_load json_loads p w = (Raise e, w).
Proof.
  intros H. pose proof (validate_and_normalize_pure yaml_safe_load json_loads p w) as Hp.
  destruct (validate_and_normalize yaml_safe_load json_loads p w) as [o w'].
  simpl in *. now subst.
Qed.
End ValidateFacts.

(** What [validate_and_normalize] returns is a mapping, and reading a
    definition sends nothing and prints nothing. *)
Theorem validate_and_normalize_returns_mapping
        (yaml_safe_load json_loads : string -> parsed) (p : path) (w : world) (d : doc) :
  fst (validate_and_normalize yaml_safe_load json_loads p w) = Ret d ->
  is_dict d = true /\
  validate_and_normalize yaml_safe_load json_loads p w = (Ret d, w).
Proof.
  intros H. split; [|now apply validate_and_normalize_ret].
  destruct (supported (lower (suffix p))) eqn:S.
  - rewrite (validate_and_normalize_supported _ _ p w S) in H. simpl in H.
    destruct (parser_of yaml_safe_load json_loads (lower (suffix p)) (read_text p))
      as [[]|]; inversion H; reflexivity.
  - rewrite (validate_and_normalize_unsupported _ _ p w S) in H. discriminate.
Qed.

Lemma validate_and_normalize_returns_mapping_witness :
  is_dict web_nginx = true /\
  validate_and_normalize (reads web_nginx) (rejects "no JSON") web_yaml at_startup
  = (Ret web_nginx, at_startup).
Proof.
  apply (validate_and_normalize_returns_mapping
           (reads web_nginx) (rejects "no JSON") web_yaml at_startup web_nginx).
  reflexivity.
Defined.



(** A file of a supported extension (in any letter case) whose content
    parses to something else than a mapping is rejected with its name
    in the message. *)
Theorem validate_and_normalize_rejects_non_mapping
        (yaml_safe_load json_loads : string -> parsed) (p : path) (w : world) (d : doc) :
  supported (lower (suffix p)) = true ->
  parser_of yaml_safe_load json_loads (lower (suffix p)) (read_text p) = Data d ->
  is_dict d = false ->
  validate_and_normalize yaml_safe_load json_loads p w =
  (Raise (Exception (name p ++ " must contain a top-level object/dict")%string), w).
Proof.
  intros S P D. rewrite (validate_and_normalize_supported _ _ p w S), P.
  destruct d; try reflexivity. discriminate.
Qed.

Lemma validate_and_normalize_rejects_non_mapping_witness :
  validate_and_normalize (rejects "no YAML") (reads (DList [DInt 1; DInt 2]))
                         list_json at_startup =
  (Raise (Exception "list.JSON must contain a top-level object/dict"), at_startup).
Proof.
  apply (validate_and_normalize_rejects_non_mapping
           (rejects "no YAML") (reads (DList [DInt 1; DInt 2])) list_json at_startup
           (DList [DInt 1; DInt 2])); reflexivity.
Defined.

(** A file of a supported extension that its parser cannot read is
    rejected with its name, its format (the extension without the dot)
    and the message of the parser. *)
Theorem validate_and_normalize_reports_parse_error
        (yaml_safe_load json_loads : string -> parsed) (p : path) (w : world) (e : string) :
  supported (lower (suffix p)) = true ->
  parser_of yaml_safe_load json_loads (lower (suffix p)) (read_text p) = ParseError e ->
  exists format,
    lower (suffix p) = ("." ++ format)%string /\
    In format ["yaml"; "yml"; "json"]%string /\
    validate_and_normalize yaml_safe_load json_loads p w =
    (Raise (Exception (name p ++ " is not valid " ++ format ++ ": " ++ e)%string), w).
Proof.
  intros S P. rewrite (validate_and_normalize_supported _ _ p w S), P.
  unfold supported in S.
  destruct (String.eqb_spec (lower (suffix p)) ".yaml") as [->|_];
    [exists "yaml"%string; simpl; auto|].
  destruct (String.eqb_spec (lower (suffix p)) ".yml") as [->|_];
    [exists "yml"%string; simpl; auto|].
  destruct (String.eqb_spec (lower (suffix p)) ".json") as [->|_];
    [exists "json"%string; simpl; auto 6 | discriminate].
Qed.

Lemma validate_and_normalize_reports_parse_error_witness :
  exists format,
    lower (suffix list_json) = ("." ++ format)%string /\
    In format ["yaml"; "yml"; "json"]%string /\
    validate_and_normalize (reads web_nginx) (rejects "Expecting value") list_json at_startup =
    (Raise (Exception ("list.JSON is not valid " ++ format ++ ": Expecting value")%string),
     at_startup).
Proof.
  apply (validate_and_normalize_reports_parse_error
           (reads web_nginx) (rejects "Expecting value") list_json at_startup
           "Expecting value"); reflexivity.
Defined.

(** *** The other paths of [deploy_app] *)

(** [deploy_app] for an application that the host has, with a
    configuration that is not equivalent to the desired document: the
    UPDATE line, one update with the spec of the mode, no creation, and
    the job of the update watched to its end. *)
Theorem deploy_app_updates_when_drifted
        (tr : transport) (yaml_safe_load json_loads : string -> parsed)
        (fuel : nat) (file_path : path) (is_compose : bool)
        (w : world) (c : nat) (desired_config found current_config job_id : doc)
        (rs : list doc) (r : doc) :
  let app_name := stem file_path in
  let params := [DStr app_name; update_spec is_compose desired_config] in
  _c (SESSION w) = Some c ->
  fst (validate_and_normalize yaml_safe_load json_loads file_path w) = Ret desired_config ->
  tr (clock w) (app_query app_name) = Ok found ->
  truthy found = true ->
  tr (S (clock w)) (Rpc "app.config" [DStr app_name]) = Ok current_config ->
  json_equivalent desired_config current_config = false ->
  tr (S (S (clock w))) (Rpc "app.update" params) = Ok job_id ->
  (forall i, (i <= List.length rs)%nat ->
             tr (S (S (S (clock w))) + i)%nat (get_jobs job_id (DBool true))
             = Ok (nth i (rs ++ [r]) DNone)) ->
  forallb running rs = true ->
  ended r = true ->
  (List.length rs < fuel)%nat ->
  exists w' evs,
    deploy_app tr yaml_safe_load json_loads fuel file_path is_compose w = (Ret tt, w') /\
    log w' = log w ++ evs /\
    evs = [Sent (app_query app_name) (Ok found);
           Sent (Rpc "app.config" [DStr app_name]) (Ok current_config);
           Printed (Update app_name);
           Sent (Rpc "app.update" params) (Ok job_id)]
          ++ watch_log job_id 1 (DBool true) DNone DNone DNone (rs ++ [r]) /\
    rpcs "app.update" evs = [params] /\
    rpcs "app.create" evs = [] /\
    last evs (Slept 0) = Printed (summary_line job_id r).
Proof.
  intros app_name params Hc Hval Hq Hfound Hcfg Hne Hup Htr Hrun Hend Hfuel.
  eexists. eexists. split; [|split; [|split; [reflexivity|split; [|split]]]].
  - unfold deploy_app. fold app_name.
    rewrite (bind_ret _ _ _ _ _ (validate_and_normalize_ret _ _ _ _ _ Hval)).
    rewrite (bind_ret _ _ _ _ _ (SESSION_call_ok tr _ _ _ _ _ Hc Hq)).
    rewrite Hfound.
    erewrite bind_ret; [| apply (SESSION_call_ok tr _ _ _ c); [exact Hc | exact Hcfg]].
    rewrite Hne. cbn [negb].
    unfold bind at 1, print, update_app.
    erewrite bind_ret; [| apply (SESSION_call_ok tr _ _ _ c); [exact Hc | exact Hup]].
    unfold watch_job.
    erewrite bind_ret;
      [| eapply (watch_loop_runs tr job_id 1 (DBool true) rs r) with (c := c);
         [exact Hc | exact Htr | exact Hrun | exact Hend | exact Hfuel]].
    reflexivity.
  - simpl. rewrite <- !app_assoc. reflexivity.
  - simpl. now rewrite watch_log_other_rpcs by reflexivity.
  - simpl. now rewrite watch_log_other_rpcs by reflexivity.
  - rewrite last_app_nonempty; [now apply watch_log_last | destruct rs; discriminate].
Qed.

Lemma deploy_app_updates_when_drifted_witness :
  json_equivalent web_two_keys web_nginx = false /\
  exists w' evs,
    deploy_app drifted_host (reads web_two_keys) (reads web_two_keys) 5 web_yaml true
               (logged_in drifted_host) = (Ret tt, w') /\
    log w' = log (logged_in drifted_host) ++ evs /\
    evs = [Sent (app_query "web") (Ok (DList [DDict [("name", DStr "web")]]));
           Sent (Rpc "app.config" [DStr "web"]) (Ok web_nginx);
           Printed (Update "web");
           Sent (Rpc "app.update" [DStr "web"; update_spec true web_two_keys])
                (Ok (DInt 7))]
          ++ watch_log (DInt 7) 1 (DBool true) DNone DNone DNone
                       (four_polls ++ [fifth_poll]) /\
    rpcs "app.update" evs = [[DStr "web"; update_spec true web_two_keys]] /\
    rpcs "app.create" evs = [] /\
    last evs (Slept 0) = Printed (summary_line (DInt 7) fifth_poll).
Proof.
  split; [reflexivity|].
  apply (deploy_app_updates_when_drifted
           drifted_host (reads web_two_keys) (reads web_two_keys) 5 web_yaml true
           (logged_in drifted_host) 0%nat web_two_keys
           (DList [DDict [("name", DStr "web")]]) web_nginx (DInt 7)
           four_polls fifth_poll); try reflexivity.
  - intros i Hi. do 5 (destruct i as [|i]; [reflexivity|]).
    simpl in Hi. lia.
  - simpl. lia.
Defined.

(** [deploy_app] outside compose mode for an application that the host
    does not have: the payload of the creation is the parsed document
    itself, without a name and without a wrapper. *)
Theorem deploy_app_creates_from_catalog
        (tr : transport) (yaml_safe_load json_loads : string -> parsed)
        (fuel : nat) (file_path : path)
        (w : world) (c : nat) (desired_config found job_id : doc)
        (rs : list doc) (r : doc) :
  let app_name := stem file_path in
  _c (SESSION w) = Some c ->
  fst (validate_and_normalize yaml_safe_load json_loads file_path w) = Ret desired_config ->
  tr (clock w) (app_query app_name) = Ok found ->
  truthy found = false ->
  tr (S (clock w)) (Rpc "app.create" [desired_config]) = Ok job_id ->
  (forall i, (i <= List.length rs)%nat ->
             tr (S (S (clock w)) + i)%nat (get_jobs job_id (DBool true))
             = Ok (nth i (rs ++ [r]) DNone)) ->
  forallb running rs = true ->
  ended r = true ->
  (List.length rs < fuel)%nat ->
  exists w' evs,
    deploy_app tr yaml_safe_load json_loads fuel file_path false w = (Ret tt, w') /\
    log w' = log w ++ evs /\
    evs = [Sent (app_query app_name) (Ok found);
           Printed (CreateCatalog app_name);
           Sent (Rpc "app.create" [desired_config]) (Ok job_id)]
          ++ watch_log job_id 1 (DBool true) DNone DNone DNone (rs ++ [r]) /\
    rpcs "app.create" evs = [[desired_config]] /\
    rpcs "app.update" evs = [].
Proof.
  intros app_name Hc Hval Hq Hfound Hcr Htr Hrun Hend Hfuel.
  eexists. eexists. split; [|split; [|split; [reflexivity|split]]].
  - unfold deploy_app. fold app_name.
    rewrite (bind_ret _ _ _ _ _ (validate_and_normalize_ret _ _ _ _ _ Hval)).
    rewrite (bind_ret _ _ _ _ _ (SESSION_call_ok tr _ _ _ _ _ Hc Hq)).
    rewrite Hfound. cbn [negb].
    unfold bind at 1, print.
    erewrite bind_ret; [| apply (SESSION_call_ok tr _ _ _ c); [exact Hc | exact Hcr]].
    unfold watch_job.
    erewrite bind_ret;
      [| eapply (watch_loop_runs tr job_id 1 (DBool true) rs r) with (c := c);
         [exact Hc | exact Htr | exact Hrun | exact Hend | exact Hfuel]].
    reflexivity.
  - simpl. rewrite <- !app_assoc. reflexivity.
  - simpl. now rewrite watch_log_other_rpcs by reflexivity.
  - simpl. now rewrite watch_log_other_rpcs by reflexivity.
Qed.

Lemma deploy_app_creates_from_catalog_witness :
  exists w' evs,
    deploy_app empty_host (reads web_nginx) (reads web_nginx) 5 web_yaml false
               (logged_in empty_host) = (Ret tt, w') /\
    log w' = log (logged_in empty_host) ++ evs /\
    evs = [Sent (app_query "web") (Ok (DList []));
           Printed (CreateCatalog "web");
           Sent (Rpc "app.create" [web_nginx]) (Ok (DInt 7))]
          ++ watch_log (DInt 7) 1 (DBool true) DNone DNone DNone
                       (four_polls ++ [fifth_poll]) /\
    rpcs "app.create" evs = [[web_nginx]] /\
    rpcs "app.update" evs = [].
Proof.
  apply (deploy_app_creates_from_catalog
           empty_host (reads web_nginx) (reads web_nginx) 5 web_yaml
           (logged_in empty_host) 0%nat web_nginx (DList []) (DInt 7)
           four_polls fifth_poll); try reflexivity.
  - intros i Hi. do 5 (destruct i as [|i]; [reflexivity|]).
    simpl in Hi. lia.
  - simpl. lia.
Defined.

(** A definition that cannot be read stops [deploy_app] before the
    first request: nothing is sent and nothing is printed. *)
Theorem deploy_app_reads_before_it_asks
        (tr : transport) (yaml_safe_load json_loads : string -> parsed)
        (fuel : nat) (file_path : path) (is_compose : bool) (w : world) (e : exn) :
  fst (validate_and_normalize yaml_safe_load json_loads file_path w) = Raise e ->
  deploy_app tr yaml_safe_load json_loads fuel file_path is_compose w = (Raise e, w).
Proof.
  intros H. unfold deploy_app.
  now rewrite (bind_raise _ _ _ _ _ (validate_and_normalize_raise _ _ _ _ _ H)).
Qed.

Lemma deploy_app_reads_before_it_asks_witness :
  deploy_app empty_host (reads web_nginx) (reads web_nginx) 5 notes_txt true
             (logged_in empty_host)
  = (Raise (Exception "/apps/notes.txt must be .yaml, .yml, or .json"),
     logged_in empty_host).
Proof.
  apply (deploy_app_reads_before_it_asks
           empty_host (reads web_nginx) (reads web_nginx) 5 notes_txt true
           (logged_in empty_host)).
  reflexivity.
Defined.

(** *** The batch *)

(** Entries that are no regular files are passed over: the batch is the
    batch of the regular files. *)
Theorem deploy_all_skips_what_is_no_file
        (tr : transport) (yaml_safe_load json_loads : string -> parsed)
        (fuel : nat) (files : list path) (w : world) :
  deploy_all tr yaml_safe_load json_loads fuel files w =
  deploy_all tr yaml_safe_load json_loads fuel (filter is_file files) w.
Proof.
  revert w. induction files as [|f rest IH]; intros w; [reflexivity|].
  simpl. destruct (is_file f) eqn:E.
  - cbn [deploy_all]. rewrite E. unfold bind.
    destruct (deploy_app tr yaml_safe_load json_loads fuel f true w) as [[[]|e|] w'];
      [apply IH | reflexivity | reflexivity].
  - unfold bind at 1, ret. apply IH.
Qed.

(** The batch stops at the first definition that cannot be read: the
    definitions after it are not looked at. *)
Theorem deploy_all_stops_at_unreadable
        (tr : transport) (yaml_safe_load json_loads : string -> parsed)
        (fuel : nat) (skipped : list path) (bad : path) (rest : list path)
        (w : world) (e : exn) :
  forallb (fun f => negb (is_file f)) skipped = true ->
  is_file bad = true ->
  fst (validate_and_normalize yaml_safe_load json_loads bad w) = Raise e ->
  deploy_all tr yaml_safe_load json_loads fuel (skipped ++ bad :: rest) w = (Raise e, w).
Proof.
  intros Hskip Hfile Hbad. induction skipped as [|f skipped IH]; simpl in *.
  - rewrite Hfile. unfold deploy_app.
    rewrite (bind_raise _ _ _ _ _
               (bind_raise _ _ _ _ _ (validate_and_normalize_raise _ _ _ _ _ Hbad))).
    reflexivity.
  - apply andb_prop in Hskip as [Hf Hskip]. rewrite negb_true_iff in Hf. rewrite Hf.
    unfold bind at 1, ret. now apply IH.
Qed.

Lemma deploy_all_stops_at_unreadable_witness :
  deploy_all empty_host (reads web_nginx) (reads web_nginx) 5
             ([backup_dir] ++ notes_txt :: [web_yaml]) (logged_in empty_host)
  = (Raise (Exception "/apps/notes.txt must be .yaml, .yml, or .json"),
     logged_in empty_host).
Proof.
  apply (deploy_all_stops_at_unreadable
           empty_host (reads web_nginx) (reads web_nginx) 5
           [backup_dir] notes_txt [web_yaml] (logged_in empty_host));
    reflexivity.
Defined.

(** The definitions are taken in ascending order of their names, each
    entry of the directory once. *)
Theorem sorted_paths_ascending (entries : list path) :
  Permutation (sorted_paths entries) entries /\
  StronglySorted (fun p q => String.leb (name p) (name q) = true) (sorted_paths entries).
Proof.
  split; [apply sorted_by_perm|].
  apply (sorted_by_sorted String.leb name);
    [apply String.leb_total | apply string_leb_trans].
Qed.

(** ** More on the job watcher *)

Section WatchMore.
Variable tr : transport.
Variables (job_id : doc) (poll : Z) (raw_result : doc).

(** The watch over records none of which ends it: one turn of the loop
    per record. *)
Lemma watch_loop_prefix (rs : list doc) :
  forall (k : nat) (lp ld le : doc) (w : world) (c : nat),
    _c (SESSION w) = Some c ->
    (forall i, (i < List.length rs)%nat ->
               tr (clock w + i)%nat (get_jobs job_id raw_result) = Ok (nth i rs DNone)) ->
    forallb running rs = true ->
    watch_loop tr (List.length rs + k) job_id poll raw_result lp ld le w =
    watch_loop tr k job_id poll raw_result
               (fst (fst (seen lp ld le rs))) (snd (fst (seen lp ld le rs)))
               (snd (seen lp ld le rs))
               (mkWorld (SESSION w) (clock w + List.length rs)
                        (log w ++ watch_log job_id poll raw_result lp ld le rs)).
Proof.
  induction rs as [|j rs IH]; intros k lp ld le w c Hc Htr Hrun.
  - simpl. rewrite Nat.add_0_r, app_nil_r. now destruct w.
  - assert (E : tr (clock w) (get_jobs job_id raw_result) = Ok j).
    { specialize (Htr 0%nat). rewrite Nat.add_0_r in Htr. apply Htr. simpl. lia. }
    simpl in Hrun. apply andb_prop in Hrun as [Hj Hrun].
    pose proof (running_not_ended j Hj) as Hne.
    unfold running in Hj. apply andb_prop in Hj as [Hrec Hterm].
    rewrite negb_true_iff in Hterm.
    cbn [List.length Nat.add].
    rewrite (watch_loop_turn tr job_id poll raw_result _ lp ld le w c j Hc E Hrec).
    rewrite Hterm.
    erewrite IH with (c := c); [| |
      |exact Hrun].
    + cbn [seen]. f_equal. rewrite watch_log_cons, Hne.
      destruct (py_ne (percent_of j) lp || py_ne (description_of j) ld);
        destruct (truthy (logs_of j) && py_ne (logs_of j) le);
        simpl; rewrite <- ?app_assoc; simpl; f_equal; lia.
    + destruct (py_ne (percent_of j) lp || py_ne (description_of j) ld);
        destruct (truthy (logs_of j) && py_ne (logs_of j) le); exact Hc.
    + intros i Hi.
      assert (Hclk : forall w0 : world, clock w0 = S (clock w) ->
                 tr (clock w0 + i)%nat (get_jobs job_id raw_result) = Ok (nth i rs DNone)).
      { intros w0 ->. specialize (Htr (S i)). simpl in Htr.
        rewrite Nat.add_succ_r in Htr. apply Htr. lia. }
      apply Hclk.
      destruct (py_ne (percent_of j) lp || py_ne (description_of j) ld);
        destruct (truthy (logs_of j) && py_ne (logs_of j) le); reflexivity.
Qed.

End WatchMore.



Lemma logs_lines_app (a b : list event) :
  logs_lines (a ++ b) = logs_lines a ++ logs_lines b.
Proof.
  induction a as [|e a IH]; simpl; [reflexivity|].
  destruct e as [rq rp|secs|l]; try exact IH.
  destruct l; try exact IH. simpl. now rewrite IH.
Qed.

Lemma summary_is_no_excerpt (job_id r : doc) :
  logs_lines [Printed (summary_line job_id r)] = [].
Proof. unfold summary_line. now destruct (py_eq (state_of r) (DStr "SUCCESS")). Qed.

Lemma summary_is_no_sleep (job_id r : doc) :
  sleeps [Printed (summary_line job_id r)] = [].
Proof. reflexivity. Qed.

Section WatchLogMore.
Variables (job_id : doc) (poll : Z) (raw_result : doc).

Lemma watch_log_excerpts (rs : list doc) (r : doc) :
  forall lp ld le,
    forallb running rs = true ->
    ended r = true ->
    logs_lines (watch_log job_id poll raw_result lp ld le (rs ++ [r]))
    = excerpt_lines job_id le (rs ++ [r]).
Proof.
  induction rs as [|j rs IH]; intros lp ld le Hrun Hend.
  - change ([] ++ [r]) with [r]. rewrite watch_log_cons, Hend.
    rewrite !logs_lines_app, summary_is_no_excerpt. cbn [excerpt_lines].
    destruct (py_ne (percent_of r) lp || py_ne (description_of r) ld);
      destruct (truthy (logs_of r) && py_ne (logs_of r) le); reflexivity.
  - simpl in Hrun. apply andb_prop in Hrun as [Hj Hrun].
    change ((j :: rs) ++ [r]) with (j :: (rs ++ [r])). rewrite watch_log_cons.
    rewrite (running_not_ended _ Hj). rewrite !logs_lines_app.
    cbn [excerpt_lines]. rewrite IH by assumption.
    destruct (py_ne (percent_of j) lp || py_ne (description_of j) ld);
      destruct (truthy (logs_of j) && py_ne (logs_of j) le); reflexivity.
Qed.

Lemma watch_log_sleeps (rs : list doc) (r : doc) :
  forall lp ld le,
    forallb running rs = true ->
    ended r = true ->
    sleeps (watch_log job_id poll raw_result lp ld le (rs ++ [r]))
    = repeat poll (List.length rs).
Proof.
  induction rs as [|j rs IH]; intros lp ld le Hrun Hend.
  - change ([] ++ [r]) with [r]. rewrite watch_log_cons, Hend.
    rewrite !sleeps_app, summary_is_no_sleep.
    destruct (py_ne (percent_of r) lp || py_ne (description_of r) ld);
      destruct (truthy (logs_of r) && py_ne (logs_of r) le); reflexivity.
  - simpl in Hrun. apply andb_prop in Hrun as [Hj Hrun].
    change ((j :: rs) ++ [r]) with (j :: (rs ++ [r])). rewrite watch_log_cons.
    rewrite (running_not_ended _ Hj). rewrite !sleeps_app.
    rewrite IH by assumption.
    destruct (py_ne (percent_of j) lp || py_ne (description_of j) ld);
      destruct (truthy (logs_of j) && py_ne (logs_of j) le); reflexivity.
Qed.
End WatchLogMore.

(** The watcher prints the excerpt of the logs of a record when there
    is one and it differs from the excerpt printed last, and only
    then. *)
Theorem watch_job_prints_new_excerpts
        (tr : transport) (job_id : doc) (poll : Z) (raw_result : doc)
        (w : world) (c : nat) (rs : list doc) (r : doc) (fuel : nat) :
  _c (SESSION w) = Some c ->
  (forall i, (i <= List.length rs)%nat ->
             tr (clock w + i)%nat (get_jobs job_id raw_result)
             = Ok (nth i (rs ++ [r]) DNone)) ->
  forallb running rs = true ->
  ended r = true ->
  (List.length rs < fuel)%nat ->
  exists w' evs,
    watch_job tr fuel job_id poll raw_result w = (Ret r, w') /\
    log w' = log w ++ evs /\
    logs_lines evs = excerpt_lines job_id DNone (rs ++ [r]).
Proof.
  intros Hc Htr Hrun Hend Hfuel.
  eexists. exists (watch_log job_id poll raw_result DNone DNone DNone (rs ++ [r])).
  split; [|split].
  - unfold watch_job. eapply watch_loop_runs; eassumption.
  - reflexivity.
  - now apply watch_log_excerpts.
Qed.

Lemma watch_job_prints_new_excerpts_witness :
  excerpt_lines (DInt 7) DNone (three_excerpts ++ [failed_poll])
  = [JobLogs (DInt 7) (DStr "pulling"); JobLogs (DInt 7) (DStr "pulling, unpacking")] /\
  exists w' evs,
    watch_job failing_job_host 4 (DInt 7) 1 (DBool true) (logged_in failing_job_host)
    = (Ret failed_poll, w') /\
    log w' = log (logged_in failing_job_host) ++ evs /\
    logs_lines evs = excerpt_lines (DInt 7) DNone (three_excerpts ++ [failed_poll]).
Proof.
  split; [reflexivity|].
  apply (watch_job_prints_new_excerpts
           failing_job_host (DInt 7) 1 (DBool true) (logged_in failing_job_host) 0%nat
           three_excerpts failed_poll 4); try reflexivity.
  - intros i Hi. do 4 (destruct i as [|i]; [reflexivity|]).
    simpl in Hi. lia.
  - simpl. lia.
Defined.

(** The watcher sleeps [poll] seconds after every record that does not
    end the watch, and does not sleep after the one that does. *)
Theorem watch_job_sleeps_between_polls
        (tr : transport) (job_id : doc) (poll : Z) (raw_result : doc)
        (w : world) (c : nat) (rs : list doc) (r : doc) (fuel : nat) :
  _c (SESSION w) = Some c ->
  (forall i, (i <= List.length rs)%nat ->
             tr (clock w + i)%nat (get_jobs job_id raw_result)
             = Ok (nth i (rs ++ [r]) DNone)) ->
  forallb running rs = true ->
  ended r = true ->
  (List.length rs < fuel)%nat ->
  exists w' evs,
    watch_job tr fuel job_id poll raw_result w = (Ret r, w') /\
    log w' = log w ++ evs /\
    sleeps evs = repeat poll (List.length rs) /\
    (forall secs, last evs (Printed (JobFinished job_id)) <> Slept secs).
Proof.
  intros Hc Htr Hrun Hend Hfuel.
  eexists. exists (watch_log job_id poll raw_result DNone DNone DNone (rs ++ [r])).
  split; [|split; [|split]].
  - unfold watch_job. eapply watch_loop_runs; eassumption.
  - reflexivity.
  - now apply watch_log_sleeps.
  - intros secs. rewrite watch_log_last by assumption. discriminate.
Qed.

Lemma watch_job_sleeps_between_polls_witness :
  exists w' evs,
    watch_job job_host 5 (DInt 7) 3 (DBool true) (logged_in job_host)
    = (Ret fifth_poll, w') /\
    log w' = log (logged_in job_host) ++ evs /\
    sleeps evs = repeat 3 (List.length four_polls) /\
    (forall secs, last evs (Printed (JobFinished (DInt 7))) <> Slept secs).
Proof.
  apply (watch_job_sleeps_between_polls
           job_host (DInt 7) 3 (DBool true) (logged_in job_host) 0%nat
           four_polls fifth_poll 5); try reflexivity.
  - intros i Hi. do 5 (destruct i as [|i]; [reflexivity|]).
    simpl in Hi. lia.
  - simpl. lia.
Defined.

(** A reply to a poll that is no mapping (None, a list, a number) makes
    the watcher raise the AttributeError of [.get]; nothing is
    printed. *)
Theorem watch_job_needs_a_mapping
        (tr : transport) (job_id : doc) (poll : Z) (raw_result : doc)
        (w : world) (c : nat) (v : doc) (fuel : nat) :
  _c (SESSION w) = Some c ->
  tr (clock w) (get_jobs job_id raw_result) = Ok v ->
  is_dict v = false ->
  watch_job tr (S fuel) job_id poll raw_result w =
  (Raise (Exception ("'" ++ type_name v ++ "' object has no attribute 'get'")%string),
   sent w (get_jobs job_id raw_result) (Ok v)).
Proof.
  intros Hc E Hd. unfold watch_job. cbn [watch_loop].
  rewrite (bind_ret _ _ _ _ _ (SESSION_call_ok tr _ _ _ _ _ Hc E)).
  destruct v; try discriminate; reflexivity.
Qed.

Lemma watch_job_needs_a_mapping_witness :
  watch_job null_host 5 (DInt 7) 1 (DBool true) (logged_in null_host) =
  (Raise (Exception "'NoneType' object has no attribute 'get'"),
   sent (logged_in null_host) (get_jobs (DInt 7) (DBool true)) (Ok DNone)).
Proof.
  apply (watch_job_needs_a_mapping null_host (DInt 7) 1 (DBool true)
                                   (logged_in null_host) 0%nat DNone 4);
    reflexivity.
Defined.

(** An error of a poll that is not transient ends the watch: the
    watcher has no handler of its own, and what [call] raises leaves
    [watch_job] as it is, after the records polled before it. *)
Theorem watch_job_raises_poll_error
        (tr : transport) (job_id : doc) (poll : Z) (raw_result : doc)
        (w : world) (c : nat) (rs : list doc) (e : exn) (fuel : nat) :
  _c (SESSION w) = Some c ->
  (forall i, (i < List.length rs)%nat ->
             tr (clock w + i)%nat (get_jobs job_id raw_result) = Ok (nth i rs DNone)) ->
  forallb running rs = true ->
  tr (clock w + List.length rs)%nat (get_jobs job_id raw_result) = Fail e ->
  match e with Exception text => transient (lower text) = false | _ => True end ->
  (List.length rs < fuel)%nat ->
  exists w',
    watch_job tr fuel job_id poll raw_result w = (Raise e, w') /\
    log w' = log w ++ watch_log job_id poll raw_result DNone DNone DNone rs
                   ++ [Sent (get_jobs job_id raw_result) (Fail e)].
Proof.
  intros Hc Htr Hrun Hfail He Hfuel.
  replace fuel with (List.length rs + S (fuel - S (List.length rs)))%nat by lia.
  unfold watch_job.
  rewrite (watch_loop_prefix tr job_id poll raw_result rs _ DNone DNone DNone w c Hc Htr Hrun).
  eexists. split.
  - cbn [watch_loop]. erewrite bind_raise; [reflexivity|].
    apply (call_raises_what_is_not_transient tr _ _ 1 1 _ c);
      [exact Hc | lia | exact Hfail | exact He].
  - simpl. now rewrite <- app_assoc.
Qed.

Lemma watch_job_raises_poll_error_witness :
  exists w',
    watch_job denied_poll_host 5 (DInt 7) 1 (DBool true) (logged_in denied_poll_host)
    = (Raise (Exception "Permission denied"), w') /\
    log w' = log (logged_in denied_poll_host)
             ++ watch_log (DInt 7) 1 (DBool true) DNone DNone DNone [job_at "RUNNING" 0]
             ++ [Sent (get_jobs (DInt 7) (DBool true))
                      (Fail (Exception "Permission denied"))].
Proof.
  apply (watch_job_raises_poll_error
           denied_poll_host (DInt 7) 1 (DBool true) (logged_in denied_poll_host) 0%nat
           [job_at "RUNNING" 0] (Exception "Permission denied") 5); try reflexivity.
  - intros i Hi. destruct i as [|i]; [reflexivity | simpl in Hi; lia].
  - simpl. lia.
Defined.

(** ** The run, and what is left of the module *)

Lemma deploy_all_no_files
      (tr : transport) (yaml_safe_load json_loads : string -> parsed)
      (fuel : nat) (files : list path) (w : world) :
  forallb (fun f => negb (is_file f)) files = true ->
  deploy_all tr yaml_safe_load json_loads fuel files w = (Ret tt, w).
Proof.
  induction files as [|f rest IH]; simpl; intros H; [reflexivity|].
  apply andb_prop in H as [Hf H]. rewrite negb_true_iff in Hf. rewrite Hf.
  unfold bind at 1, ret. now apply IH.
Qed.



(** A directory without a regular file: once the session is open and
    the Docker service is running, the run ends normally, and the
    status of the service is all that it asked. *)
Theorem main_without_definitions
        (tr : transport) (yaml_safe_load json_loads : string -> parsed)
        (fuel : nat) (entries : list path) (w w1 : world) (status : doc) :
  open tr w = (Ret tt, w1) ->
  tr (clock w1) (Rpc "docker.status" []) = Ok status ->
  is_dict status = true ->
  py_eq (field "status" status) (DStr "RUNNING") = true ->
  forallb (fun f => negb (is_file f)) entries = true ->
  main tr yaml_safe_load json_loads fuel entries w
  = (Ret tt, sent w1 (Rpc "docker.status" []) (Ok status)).
Proof.
  intros Hopen Hst Hdict Hrun Hnone.
  destruct (open_ret tr w w1 Hopen) as [[c Hc] _].
  unfold main. rewrite (bind_ret _ _ _ _ _ Hopen).
  assert (Hval : validate_truenas tr w1
                 = (Ret tt, sent w1 (Rpc "docker.status" []) (Ok status))).
  { unfold validate_truenas.
    rewrite (bind_ret _ _ _ _ _ (SESSION_call_ok tr _ _ _ _ _ Hc Hst)).
    rewrite (bind_ret _ _ _ _ _ (py_get_field status "status" _ Hdict)).
    now rewrite Hrun. }
  rewrite (bind_ret _ _ _ _ _ Hval).
  apply deploy_all_no_files.
  rewrite forallb_forall in *. intros f Hf. apply Hnone.
  eapply Permutation_in; [apply (sorted_by_perm String.leb name) | exact Hf].
Qed.

Lemma main_without_definitions_witness :
  main idle_host (reads web_nginx) (reads web_nginx) 5 [backup_dir] at_startup
  = (Ret tt, sent (logged_in idle_host) (Rpc "docker.status" [])
                  (Ok (DDict [("status", DStr "RUNNING")]))).
Proof.
  apply (main_without_definitions
           idle_host (reads web_nginx) (reads web_nginx) 5 [backup_dir]
           at_startup (logged_in idle_host) (DDict [("status", DStr "RUNNING")]));
    reflexivity.
Defined.

(** *** [extract_current_spec] *)

Lemma first_values_shape (app_obj : doc) (keys : list string) (w : world) (r : doc) :
  fst (first_values app_obj keys w) = Ret r ->
  first_values app_obj keys w = (Ret r, w) /\
  (r = DDict [] \/
   exists k kvs, In k keys /\ field k app_obj = DDict kvs /\ r = DDict [("values", DDict kvs)]).
Proof.
  induction keys as [|k rest IH]; simpl.
  - intros H. inversion H. split; [reflexivity | now left].
  - destruct app_obj; try discriminate.
    rewrite (bind_ret _ _ _ _ _ (py_get_field (DDict kvs) k w eq_refl)).
    destruct (field k (DDict kvs)) as [| | | | | |kvs'] eqn:F; simpl;
      try (intros H; destruct (IH H) as [H1 [H2|[k' [kvs2 [Hin [Hf Hr]]]]]];
           split; [exact H1 | | exact H1 | ]; [now left | right; exists k', kvs2; auto]).
    intros H. inversion H. split; [reflexivity|].
    right. exists k, kvs'. auto.
Qed.

(** Outside compose mode [extract_current_spec] returns either the
    empty mapping or a mapping with the one key [values], bound to the
    mapping that the record has under [values], [config] or
    [chart_values]; it sends nothing and prints nothing. *)
Theorem extract_current_spec_shape (app_obj : doc) (w : world) (r : doc) :
  fst (extract_current_spec app_obj false w) = Ret r ->
  extract_current_spec app_obj false w = (Ret r, w) /\
  (r = DDict [] \/
   exists k kvs, In k ["values"; "config"; "chart_values"]%string /\
                 field k app_obj = DDict kvs /\ r = DDict [("values", DDict kvs)]).
Proof. apply first_values_shape. Qed.

Lemma extract_current_spec_shape_witness :
  extract_current_spec chart_app false at_startup
  = (Ret (DDict [("values", DDict [("replicas", DInt 2)])]), at_startup) /\
  (DDict [("values", DDict [("replicas", DInt 2)])] = DDict [] \/
   exists k kvs, In k ["values"; "config"; "chart_values"]%string /\
                 field k chart_app = DDict kvs /\
                 DDict [("values", DDict [("replicas", DInt 2)])]
                 = DDict [("values", DDict kvs)]).
Proof.
  apply (extract_current_spec_shape chart_app at_startup
           (DDict [("values", DDict [("replicas", DInt 2)])])).
  reflexivity.
Defined.

(** ** The markers of a transient error *)

Lemma prefix_iff (n h : string) :
  prefix n h = true <-> exists b, h = (n ++ b)%string.
Proof.
  revert h. induction n as [|c n IH]; intros h; simpl.
  - destruct h; split; eauto.
  - destruct h as [|c' h]; simpl.
    + split; [discriminate | intros [b Hb]; discriminate].
    + destruct (ascii_dec c c') as [->|Hne].
      * rewrite IH. split; intros [b Hb]; exists b; [now rewrite Hb | now inversion Hb].
      * split; [discriminate | intros [b Hb]; inversion Hb; subst; now elim Hne].
Qed.

(** [needle in hay]: the needle stands somewhere in the hay. *)
Lemma contains_iff (n h : string) :
  contains n h = true <-> exists a b, h = (a ++ n ++ b)%string.
Proof.
  induction h as [|c h IH]; cbn [contains].
  - rewrite prefix_iff. split.
    + intros [b Hb]. now exists ""%string, b.
    + intros [a [b Hab]]. destruct a; [now exists b | discriminate].
  - rewrite orb_true_iff, IH, prefix_iff. split.
    + intros [[b Hb]|[a [b Hab]]].
      * now exists ""%string, b.
      * exists (String c a), b. simpl. now rewrite Hab.
    + intros [a [b Hab]]. destruct a as [|c' a]; simpl in Hab.
      * left. now exists b.
      * right. inversion Hab. now exists a, b.
Qed.

(** A message is taken for transient exactly when it holds one of
    [rate], [broken pipe] and [closed], anywhere, also inside another
    word; the test for [ratelimit] adds nothing to the test for
    [rate]. *)
Theorem transient_markers (msg : string) :
  transient msg = true <->
  exists a b, msg = (a ++ "rate" ++ b)%string \/
              msg = (a ++ "broken pipe" ++ b)%string \/
              msg = (a ++ "closed" ++ b)%string.
Proof.
  unfold transient. rewrite !orb_true_iff, !contains_iff. split.
  - intros [[[[a [b H]]|[a [b H]]]|[a [b H]]]|[a [b H]]].
    + exists a, b. auto.
    + exists a, ("limit" ++ b)%string. left. rewrite H. reflexivity.
    + exists a, b. auto.
    + exists a, b. auto.
  - intros [a [b [H|[H|H]]]].
    + left. left. left. now exists a, b.
    + left. right. now exists a, b.
    + right. now exists a, b.
Qed.
